(** * The screen-recording composable [useMediaRecorder]

    A shallow embedding of
    [frontend/src/composables/useMediaRecorder.ts]: the layout easing of the
    webcam bubble, the canvas resolution policy, the compositing loop, and
    the start/stop/cleanup life cycle of a recording session, the
    elapsed-time display, and the layout buttons of the recording controls
    that call [setWebcamLayout].

    Numbers.  JavaScript numbers are IEEE-754 doubles.  The general
    theorems below are stated over exact rationals ([Q]); the two numeric
    kernels (the easing step and the canvas size) are embedded a second
    time over the kernel's binary64 floats in [Module F64], where they are
    evaluated on concrete inputs. *)

From Stdlib Require DecimalString DecimalNat Decimal.
From Stdlib Require Import Ascii.
From Stdlib Require Import ZArith NArith QArith Qround Qabs Qminmax.
From Stdlib Require Import Lia Lqa List String Bool Floats.
Import ListNotations.

Local Open Scope string_scope.
Local Open Scope list_scope.
Local Open Scope Q_scope.

(* ================================================================== *)
(** ** Layout model (lines 21-28, 127-130, 582-586) *)

(** [{ x, y, size }]: normalized centre and radius of the webcam bubble. *)
Record Layout : Type := mkLayout {
  layout_x : Q;
  layout_y : Q;
  layout_size : Q
}.

(** [const currentLayout = { x: 0.1, y: 0.9, size: 0.09 }] and the
    identical initial [targetLayout]. *)
Definition defaultLayout : Layout :=
  {| layout_x := 1 # 10; layout_y := 9 # 10; layout_size := 9 # 100 |}.

(** [const LERP_FACTOR = 0.15] *)
Definition LERP_FACTOR : Q := 15 # 100.

(** The two layout objects of the closure. *)
Record LayoutState : Type := mkLayoutState {
  currentLayout : Layout;
  targetLayout : Layout
}.

Definition initialLayoutState : LayoutState :=
  {| currentLayout := defaultLayout; targetLayout := defaultLayout |}.

(** [cur += (tgt - cur) * LERP_FACTOR] *)
Definition lerp (cur tgt : Q) : Q := cur + (tgt - cur) * LERP_FACTOR.

(** Lines 128-130 of [compositeFrame]: the three in-place updates of
    [currentLayout]. *)
Definition interpolateLayout (ls : LayoutState) : LayoutState :=
  let c := currentLayout ls in
  let t := targetLayout ls in
  {| currentLayout :=
       {| layout_x := lerp (layout_x c) (layout_x t);
          layout_y := lerp (layout_y c) (layout_y t);
          layout_size := lerp (layout_size c) (layout_size t) |};
     targetLayout := t |}.

(** [setWebcamLayout]: copies the three fields of its argument into
    [targetLayout]. *)
Definition setWebcamLayout (layout : Layout) (ls : LayoutState) : LayoutState :=
  {| currentLayout := currentLayout ls;
     targetLayout :=
       {| layout_x := layout_x layout;
          layout_y := layout_y layout;
          layout_size := layout_size layout |} |}.








Definition layoutCenter : Layout :=
  {| layout_x := 1 # 2; layout_y := 1 # 2; layout_size := 27 # 100 |}.

(* ================================================================== *)
(** ** Canvas resolution policy (lines 260-283 of [startRecording]) *)

(** [Math.round]: the nearest integer, ties towards plus infinity. *)
Definition Math_round (q : Q) : Z := Qfloor (q + (1 # 2)).

Definition MAX_WIDTH : Z := 1920.
Definition MAX_HEIGHT : Z := 1080.

(** [settings.width || 1920]: [MediaTrackSettings.width] is an optional
    [unsigned long]; [undefined] and [0] are falsy. *)
Definition orDefault (v : option N) (d : Z) : Z :=
  match v with
  | Some n => if (n =? 0)%N then d else Z.of_N n
  | None => d
  end.

Definition downscaleRatio (width height : Z) : Q :=
  Qmin (inject_Z MAX_WIDTH / inject_Z width) (inject_Z MAX_HEIGHT / inject_Z height).

(** The [width]/[height] pair assigned to the compositing canvas. *)
Definition canvasSize (settings_width settings_height : option N) : Z * Z :=
  let rawWidth := orDefault settings_width 1920 in
  let rawHeight := orDefault settings_height 1080 in
  if ((rawWidth >? MAX_WIDTH) || (rawHeight >? MAX_HEIGHT))%Z then
    let ratio := downscaleRatio rawWidth rawHeight in
    (Math_round (inject_Z rawWidth * ratio), Math_round (inject_Z rawHeight * ratio))
  else (rawWidth, rawHeight).

(* ================================================================== *)
(** ** The numeric kernels over binary64 *)

Module F64.

Definition LERP_FACTOR : float := 0x1.3333333333333p-3%float. (* 0.15 *)

Definition lerp (cur tgt : float) : float :=
  PrimFloat.add cur (PrimFloat.mul (PrimFloat.sub tgt cur) LERP_FACTOR).


(** The exact value of a finite double. *)
Definition toQ (f : float) : option Q :=
  match Prim2SF f with
  | S754_zero _ => Some 0
  | S754_finite s m e =>
      let mag := (inject_Z (Z.pos m) * Qpower 2 e)%Q in
      Some (if s then - mag else mag)
  | _ => None
  end.

Definition ofZ (z : Z) : float := PrimFloat.of_uint63 (Uint63.of_Z z).

(** [Math.round] of a finite double. *)
Definition round (f : float) : option Z := option_map Math_round (toQ f).

(** [Math.min] on two doubles that are not NaN. *)
Definition min (a b : float) : float := if PrimFloat.ltb a b then a else b.

(** Lines 263-274 on doubles, from the raw width and height. *)
Definition canvasSize (rawWidth rawHeight : Z) : option (Z * Z) :=
  let width := ofZ rawWidth in
  let height := ofZ rawHeight in
  if PrimFloat.ltb (ofZ MAX_WIDTH) width || PrimFloat.ltb (ofZ MAX_HEIGHT) height then
    let ratio :=
      min (PrimFloat.div (ofZ MAX_WIDTH) width) (PrimFloat.div (ofZ MAX_HEIGHT) height) in
    match round (PrimFloat.mul width ratio), round (PrimFloat.mul height ratio) with
    | Some w, Some h => Some (w, h)
    | _, _ => None
    end
  else Some (rawWidth, rawHeight).

End F64.

(* ================================================================== *)
(** ** Platform objects *)

Inductive TrackKind : Type := VideoKind | AudioKind.

(** A [MediaStreamTrack].  [SourceTrack] is a track delivered by
    [getDisplayMedia] or [getUserMedia]; [CanvasTrack] is the video track of
    [canvas.captureStream(30)] for the canvas of one compositing loop;
    [MixedTrack] is the single audio track of the stream of a
    [MediaStreamAudioDestinationNode] (Web Audio: that stream holds exactly
    one track, of kind audio). *)
Inductive Track : Type :=
| SourceTrack (id : nat) (kind : TrackKind)
| CanvasTrack (canvas : nat)
| MixedTrack (ctx : nat).

Definition trackKind (t : Track) : TrackKind :=
  match t with
  | SourceTrack _ k => k
  | CanvasTrack _ => VideoKind
  | MixedTrack _ => AudioKind
  end.

Definition isVideo (t : Track) : bool :=
  match trackKind t with VideoKind => true | AudioKind => false end.
Definition isAudio (t : Track) : bool := negb (isVideo t).

(** A [MediaStream] is its track list. *)
Definition MediaStream : Type := list Track.
Definition getVideoTracks (ms : MediaStream) : list Track := filter isVideo ms.
Definition getAudioTracks (ms : MediaStream) : list Track := filter isAudio ms.
Definition getTracks (ms : MediaStream) : list Track := ms.

Record Blob : Type := mkBlob { blob_size : N; blob_type : string }.

(** [new Blob(chunks, { type })] *)
Definition newBlob (chunks : list Blob) (type : string) : Blob :=
  {| blob_size := fold_right (fun c acc => (blob_size c + acc)%N) 0%N chunks;
     blob_type := type |}.

(** [URL.createObjectURL(blob)] *)
Inductive ObjectUrl : Type := BlobUrl (b : Blob).

(** Where a thrown value was made: by a [new Error(..)] of this file, or by
    one of the platform calls. *)
Inductive PlatformOp : Type :=
| GetDisplayMedia | GetUserMediaMic | GetUserMediaCam
| PlayDisplay | PlayWebcam
| NewRecorderDefault | NewRecorderExplicit | RecorderStart
| RecorderStopCall | RequestData.

Inductive Origin : Type := ByCode | ByPlatform (op : PlatformOp).

Record Err : Type := mkErr {
  err_origin : Origin;
  err_is_Error : bool;       (* [err instanceof Error] *)
  err_name : string;
  err_message : string
}.

(** What a failing platform call throws or rejects with. *)
Record PlatformFailure : Type := mkFailure {
  pf_is_Error : bool;
  pf_name : string;
  pf_message : string
}.

Definition platformErr (op : PlatformOp) (f : PlatformFailure) : Err :=
  {| err_origin := ByPlatform op; err_is_Error := pf_is_Error f;
     err_name := pf_name f; err_message := pf_message f |}.

(** [new Error(msg)] *)
Definition newError (msg : string) : Err :=
  {| err_origin := ByCode; err_is_Error := true;
     err_name := "Error"; err_message := msg |}.

(** [new TypeError(..)] raised by calling [null] as a function. *)
Definition notAFunction (what : string) : Err :=
  {| err_origin := ByCode; err_is_Error := true;
     err_name := "TypeError"; err_message := String.append what " is not a function" |}.

(** String conversion of a thrown value in ['...' + err]. *)
Definition errToString (e : Err) : string :=
  String.append (err_name e) (String.append ": " (err_message e)).

Inductive Settlement : Type :=
| Resolved (b : Blob)
| Rejected (e : Err).

Inductive RecorderState : Type := Inactive | Recording | Paused.

(** The [MediaRecorder] object with what its handlers' closure keeps:
    the [mimeType] constant of the [startRecording] call that built it. *)
Record Recorder : Type := mkRecorder {
  rec_state : RecorderState;
  rec_mimeType : string;
  rec_explicit : bool   (* built by the second constructor call *)
}.

(** A hidden [<video>] element. *)
Record VideoEl : Type := mkVideoEl {
  srcObject : option MediaStream;
  muted : bool;
  paused : bool;
  readyState : nat
}.

(** The closure of one [startCompositingLoop] call. *)
Record Loop : Type := mkLoop {
  loop_cw : Z;
  loop_ch : Z;
  lastFrameTime : Q;
  dispVideo : nat;          (* reference into the element store *)
  camVideo : option nat
}.

Inductive TimeoutCallback : Type :=
| SafetyTimeout    (* the 3000 ms callback of [stopRecording] *)
| FinishStopTimeout (* the 500 ms callback that calls [finishStop] *).

Inductive AudioSource : Type := SystemAudio | MicAudio.

(** Calls on platform objects and the two milestones the session is
    judged by, in the order they happen. *)
Inductive Effect : Type :=
| ECleanup                                   (* [cleanup()] entered *)
| ESettle (promise : nat) (o : Settlement)   (* [resolve]/[reject] called *)
| ETrackStop (t : Track)
| ECancelAnimationFrame (handle : nat)
| EPause (el : nat)
| ECloseAudio (ctx : nat)
| EConnect (ctx : nat) (src : AudioSource)
| ERecorderStart
| ERecorderStop
| ERequestData
| EDrawBackground (loop : nat)               (* [ctx.drawImage(dispVideo, 0, 0, cw, ch)] *)
| EDrawOverlay (loop : nat) (cx cy radius : Q)
| EUncaught (e : Err).                       (* exception leaving an event callback *)

Inductive LogLevel : Type := LogInfo | LogWarn | LogError.

(** What [navigator] and [MediaRecorder] offer in this browser. *)
Record Browser : Type := mkBrowser {
  has_mediaDevices : bool;
  has_getDisplayMedia : bool;
  has_MediaRecorder : bool;
  isTypeSupported : string -> bool
}.

(* ================================================================== *)
(** ** The state of one [useMediaRecorder()] instance *)

(** The Vue refs. *)
Record Refs : Type := mkRefs {
  isRecording : bool;
  recordingTime : nat;
  error : option string;
  previewUrl : option ObjectUrl;
  isBrowserSupported : bool;
  webcamEnabled : bool;
  webcamStream : option MediaStream
}.

(** The [let] variables of the session. *)
Record Vars : Type := mkVars {
  mediaRecorder : option Recorder;
  chunks : list Blob;
  mediaStream : option MediaStream;
  timerInterval : option nat;
  stopResolve : option nat;   (* the promise whose [resolve] the closure holds *)
  stopReject : option nat;
  audioContext : option nat;
  audioDestination : option nat;
  displayStream : option MediaStream
}.

(** The compositor's variables. *)
Record Comp : Type := mkComp {
  layouts : LayoutState;
  animationFrameId : option nat;
  displayVideoEl : option nat;
  webcamVideoEl : option nat
}.

(** What the platform holds for this page. *)
Record Plat : Type := mkPlat {
  videoEls : list VideoEl;       (* element store *)
  loops : list Loop;             (* one closure per compositing loop *)
  rafQueue : list (nat * nat);   (* pending [(handle, loop)] callbacks *)
  intervals : list nat;          (* live [setInterval] handles *)
  timeouts : list TimeoutCallback;
  endedHandler : list Track;     (* tracks whose [onended] is set *)
  nextHandle : nat
}.

Record State : Type := mkState {
  refs : Refs;
  vars : Vars;
  comp : Comp;
  plat : Plat;
  trace : list Effect;
  console : list (LogLevel * string)
}.

(** *** Field updates *)

Definition set_isRecording v r := mkRefs v (recordingTime r) (error r) (previewUrl r) (isBrowserSupported r) (webcamEnabled r) (webcamStream r).
Definition set_recordingTime v r := mkRefs (isRecording r) v (error r) (previewUrl r) (isBrowserSupported r) (webcamEnabled r) (webcamStream r).
Definition set_error v r := mkRefs (isRecording r) (recordingTime r) v (previewUrl r) (isBrowserSupported r) (webcamEnabled r) (webcamStream r).
Definition set_previewUrl v r := mkRefs (isRecording r) (recordingTime r) (error r) v (isBrowserSupported r) (webcamEnabled r) (webcamStream r).
Definition set_webcamEnabled v r := mkRefs (isRecording r) (recordingTime r) (error r) (previewUrl r) (isBrowserSupported r) v (webcamStream r).
Definition set_webcamStream v r := mkRefs (isRecording r) (recordingTime r) (error r) (previewUrl r) (isBrowserSupported r) (webcamEnabled r) v.

Definition set_mediaRecorder v x := mkVars v (chunks x) (mediaStream x) (timerInterval x) (stopResolve x) (stopReject x) (audioContext x) (audioDestination x) (displayStream x).
Definition set_chunks v x := mkVars (mediaRecorder x) v (mediaStream x) (timerInterval x) (stopResolve x) (stopReject x) (audioContext x) (audioDestination x) (displayStream x).
Definition set_mediaStream v x := mkVars (mediaRecorder x) (chunks x) v (timerInterval x) (stopResolve x) (stopReject x) (audioContext x) (audioDestination x) (displayStream x).
Definition set_timerInterval v x := mkVars (mediaRecorder x) (chunks x) (mediaStream x) v (stopResolve x) (stopReject x) (audioContext x) (audioDestination x) (displayStream x).
Definition set_stopResolve v x := mkVars (mediaRecorder x) (chunks x) (mediaStream x) (timerInterval x) v (stopReject x) (audioContext x) (audioDestination x) (displayStream x).
Definition set_stopReject v x := mkVars (mediaRecorder x) (chunks x) (mediaStream x) (timerInterval x) (stopResolve x) v (audioContext x) (audioDestination x) (displayStream x).
Definition set_audioContext v x := mkVars (mediaRecorder x) (chunks x) (mediaStream x) (timerInterval x) (stopResolve x) (stopReject x) v (audioDestination x) (displayStream x).
Definition set_audioDestination v x := mkVars (mediaRecorder x) (chunks x) (mediaStream x) (timerInterval x) (stopResolve x) (stopReject x) (audioContext x) v (displayStream x).
Definition set_displayStream v x := mkVars (mediaRecorder x) (chunks x) (mediaStream x) (timerInterval x) (stopResolve x) (stopReject x) (audioContext x) (audioDestination x) v.

Definition set_layouts v c := mkComp v (animationFrameId c) (displayVideoEl c) (webcamVideoEl c).
Definition set_animationFrameId v c := mkComp (layouts c) v (displayVideoEl c) (webcamVideoEl c).
Definition set_displayVideoEl v c := mkComp (layouts c) (animationFrameId c) v (webcamVideoEl c).
Definition set_webcamVideoEl v c := mkComp (layouts c) (animationFrameId c) (displayVideoEl c) v.

Definition set_videoEls v p := mkPlat v (loops p) (rafQueue p) (intervals p) (timeouts p) (endedHandler p) (nextHandle p).
Definition set_loops v p := mkPlat (videoEls p) v (rafQueue p) (intervals p) (timeouts p) (endedHandler p) (nextHandle p).
Definition set_rafQueue v p := mkPlat (videoEls p) (loops p) v (intervals p) (timeouts p) (endedHandler p) (nextHandle p).
Definition set_intervals v p := mkPlat (videoEls p) (loops p) (rafQueue p) v (timeouts p) (endedHandler p) (nextHandle p).
Definition set_timeouts v p := mkPlat (videoEls p) (loops p) (rafQueue p) (intervals p) v (endedHandler p) (nextHandle p).
Definition set_endedHandler v p := mkPlat (videoEls p) (loops p) (rafQueue p) (intervals p) (timeouts p) v (nextHandle p).
Definition set_nextHandle v p := mkPlat (videoEls p) (loops p) (rafQueue p) (intervals p) (timeouts p) (endedHandler p) v.

Definition updRefs (f : Refs -> Refs) (s : State) : State :=
  mkState (f (refs s)) (vars s) (comp s) (plat s) (trace s) (console s).
Definition updVars (f : Vars -> Vars) (s : State) : State :=
  mkState (refs s) (f (vars s)) (comp s) (plat s) (trace s) (console s).
Definition updComp (f : Comp -> Comp) (s : State) : State :=
  mkState (refs s) (vars s) (f (comp s)) (plat s) (trace s) (console s).
Definition updPlat (f : Plat -> Plat) (s : State) : State :=
  mkState (refs s) (vars s) (comp s) (f (plat s)) (trace s) (console s).
Definition addEffect (e : Effect) (s : State) : State :=
  mkState (refs s) (vars s) (comp s) (plat s) (trace s ++ [e]) (console s).
Definition addEffects (es : list Effect) (s : State) : State :=
  mkState (refs s) (vars s) (comp s) (plat s) (trace s ++ es) (console s).
Definition addLog (l : LogLevel) (msg : string) (s : State) : State :=
  mkState (refs s) (vars s) (comp s) (plat s) (trace s) (console s ++ [(l, msg)]).

(* ================================================================== *)
(** ** Statements: state passing with exceptions *)

Inductive Result (A : Type) : Type :=
| Ok (a : A)
| Throw (e : Err).
Arguments Ok {A} a.
Arguments Throw {A} e.

Definition M (A : Type) : Type := State -> Result A * State.

Definition ret {A} (a : A) : M A := fun s => (Ok a, s).

Definition bind {A B} (m : M A) (f : A -> M B) : M B :=
  fun s =>
    match m s with
    | (Ok a, s') => f a s'
    | (Throw e, s') => (Throw e, s')
    end.

Definition throw {A} (e : Err) : M A := fun s => (Throw e, s).

(** [try { body } catch (e) { handler e }] *)
Definition tryCatch {A} (body : M A) (handler : Err -> M A) : M A :=
  fun s =>
    match body s with
    | (Ok a, s') => (Ok a, s')
    | (Throw e, s') => handler e s'
    end.

Definition modify (f : State -> State) : M unit := fun s => (Ok tt, f s).
Definition gets {A} (f : State -> A) : M A := fun s => (Ok (f s), s).

Notation "x <- m ;; k" := (bind m (fun x => k))
  (at level 61, m at next level, right associativity).
Notation "m ;; k" := (bind m (fun _ => k))
  (at level 61, right associativity).

Definition getRef {A} (f : Refs -> A) : M A := gets (fun s => f (refs s)).
Definition getVar {A} (f : Vars -> A) : M A := gets (fun s => f (vars s)).
Definition getComp {A} (f : Comp -> A) : M A := gets (fun s => f (comp s)).
Definition getPlat {A} (f : Plat -> A) : M A := gets (fun s => f (plat s)).
Definition setRef (f : Refs -> Refs) : M unit := modify (updRefs f).
Definition setVar (f : Vars -> Vars) : M unit := modify (updVars f).
Definition setComp (f : Comp -> Comp) : M unit := modify (updComp f).
Definition setPlat (f : Plat -> Plat) : M unit := modify (updPlat f).
Definition effect (e : Effect) : M unit := modify (addEffect e).
Definition effects (es : list Effect) : M unit := modify (addEffects es).
Definition log (msg : string) : M unit := modify (addLog LogInfo msg).
Definition warn (msg : string) : M unit := modify (addLog LogWarn msg).
Definition logError (msg : string) : M unit := modify (addLog LogError msg).

Definition when (b : bool) (m : M unit) : M unit := if b then m else ret tt.

(** A fresh handle (animation frame, interval, promise, audio context). *)
Definition fresh : M nat :=
  h <- getPlat nextHandle ;;
  setPlat (set_nextHandle (S h)) ;;
  ret h.

(** Run an event callback: an exception that leaves it is reported and
    dropped, the state changes made before it stay. *)
Definition runCallback (m : M unit) (s : State) : State :=
  match m s with
  | (Ok _, s') => s'
  | (Throw e, s') => addEffect (EUncaught e) s'
  end.

(* ================================================================== *)
(** ** Small helpers *)

Definition isSome {A} (o : option A) : bool :=
  match o with Some _ => true | None => false end.

Fixpoint updateAt {A} (i : nat) (f : A -> A) (l : list A) : list A :=
  match l, i with
  | [], _ => []
  | a :: l', O => f a :: l'
  | a :: l', S k => a :: updateAt k f l'
  end.

Fixpoint removeFirst (cb : TimeoutCallback) (l : list TimeoutCallback) : list TimeoutCallback :=
  match l with
  | [] => []
  | c :: l' =>
      match cb, c with
      | SafetyTimeout, SafetyTimeout => l'
      | FinishStopTimeout, FinishStopTimeout => l'
      | _, _ => c :: removeFirst cb l'
      end
  end.

Definition isTimeout (cb c : TimeoutCallback) : bool :=
  match cb, c with
  | SafetyTimeout, SafetyTimeout => true
  | FinishStopTimeout, FinishStopTimeout => true
  | _, _ => false
  end.

Definition kind_eqb (a b : TrackKind) : bool :=
  match a, b with
  | VideoKind, VideoKind => true
  | AudioKind, AudioKind => true
  | _, _ => false
  end.

Definition track_eqb (a b : Track) : bool :=
  match a, b with
  | SourceTrack i k, SourceTrack j k' => Nat.eqb i j && kind_eqb k k'
  | CanvasTrack i, CanvasTrack j => Nat.eqb i j
  | MixedTrack i, MixedTrack j => Nat.eqb i j
  | _, _ => false
  end.

(** An awaited or called platform operation that may fail. *)
Definition awaitPlatform {A} (op : PlatformOp) (r : PlatformFailure + A) : M A :=
  match r with
  | inl f => throw (platformErr op f)
  | inr a => ret a
  end.

Definition callPlatform (op : PlatformOp) (r : option PlatformFailure) : M unit :=
  match r with
  | Some f => throw (platformErr op f)
  | None => ret tt
  end.

(* ================================================================== *)
(** ** Browser support check (lines 34-68) *)

Definition checkBrowserSupport (b : Browser) : bool * option string :=
  if negb (has_mediaDevices b) then
    (false, Some "Your browser does not support media devices API. Please use a modern desktop browser like Chrome, Firefox, or Edge.")
  else if negb (has_getDisplayMedia b) then
    (false, Some "Screen recording is not supported on this device. Please use a desktop browser like Chrome, Firefox, or Edge.")
  else if negb (has_MediaRecorder b) then
    (false, Some "MediaRecorder API is not supported in your browser. Please update your browser or try a different one.")
  else (true, None).

(** The state right after [useMediaRecorder()] returns. *)
Definition initialState (b : Browser) : State :=
  let browserCheck := checkBrowserSupport b in
  {| refs :=
       {| isRecording := false; recordingTime := 0%nat;
          error := if negb (fst browserCheck) then snd browserCheck else None;
          previewUrl := None;
          isBrowserSupported := fst browserCheck;
          webcamEnabled := true; webcamStream := None |};
     vars :=
       {| mediaRecorder := None; chunks := []; mediaStream := None;
          timerInterval := None; stopResolve := None; stopReject := None;
          audioContext := None; audioDestination := None; displayStream := None |};
     comp :=
       {| layouts := initialLayoutState; animationFrameId := None;
          displayVideoEl := None; webcamVideoEl := None |};
     plat :=
       {| videoEls := []; loops := []; rafQueue := []; intervals := [];
          timeouts := []; endedHandler := []; nextHandle := 1%nat |};
     trace := []; console := [] |}.

(* ================================================================== *)
(** ** Webcam controller (lines 70-100) *)

(** [track.stop()] on every track of a stream. *)
Definition stopTracks (ms : MediaStream) : M unit :=
  effects (map ETrackStop (getTracks ms)).

(** [cam] is what [getUserMedia({ video, audio: false })] answers. *)
Definition initWebcam (cam : PlatformFailure + MediaStream) : M (option MediaStream) :=
  tryCatch
    (stream <- awaitPlatform GetUserMediaCam cam ;;
     setRef (set_webcamStream (Some stream)) ;;
     ret (Some stream))
    (fun e =>
     warn "Could not access webcam:" ;;
     setRef (set_webcamEnabled false) ;;
     ret None).

Definition stopWebcam : M unit :=
  ws <- getRef webcamStream ;;
  match ws with
  | Some stream =>
      stopTracks stream ;;
      setRef (set_webcamStream None)
  | None => ret tt
  end.

Definition toggleWebcam (cam : PlatformFailure + MediaStream) : M unit :=
  ws <- getRef webcamStream ;;
  if isSome ws then
    stopWebcam ;;
    setRef (set_webcamEnabled false)
  else
    setRef (set_webcamEnabled true) ;;
    _ <- initWebcam cam ;;
    ret tt.

(* ================================================================== *)
(** ** Compositing loop (lines 102-184) *)

Definition requestAnimationFrame (loop : nat) : M nat :=
  h <- fresh ;;
  setPlat (fun p => set_rafQueue (rafQueue p ++ [(h, loop)]) p) ;;
  ret h.

Definition cancelAnimationFrame (h : nat) : M unit :=
  effect (ECancelAnimationFrame h) ;;
  setPlat (fun p =>
    set_rafQueue (filter (fun cb => negb (Nat.eqb (fst cb) h)) (rafQueue p)) p).

(** [const FRAME_INTERVAL = 1000 / TARGET_FPS] with [TARGET_FPS = 30] *)
Definition FRAME_INTERVAL : Q := 1000 / 30.

Definition setLastFrameTime (t : Q) (l : Loop) : Loop :=
  mkLoop (loop_cw l) (loop_ch l) t (dispVideo l) (camVideo l).

Definition Zmin_Q (a b : Z) : Q := inject_Z (Z.min a b).

(** [camVideo && camVideo.readyState >= 2] *)
Definition camReady (p : Plat) (cam : option nat) : bool :=
  match cam with
  | Some el =>
      match nth_error (videoEls p) el with
      | Some v => (2 <=? readyState v)%nat
      | None => false
      end
  | None => false
  end.

(** One run of the callback of loop [loop].  The overlay is recorded by
    its circle (centre and radius); the crop rectangle read from the
    webcam element's intrinsic size and the two ring strokes share that
    circle. *)
Definition compositeFrame (loop : nat) (timestamp : Q) : M unit :=
  closure <- getPlat (fun p => nth_error (loops p) loop) ;;
  match closure with
  | None => ret tt
  | Some l =>
      h <- requestAnimationFrame loop ;;
      setComp (set_animationFrameId (Some h)) ;;
      if negb (Qle_bool FRAME_INTERVAL (timestamp - lastFrameTime l)) then
        ret tt
      else
        setPlat (fun p => set_loops (updateAt loop (setLastFrameTime timestamp) (loops p)) p) ;;
        effect (EDrawBackground loop) ;;
        setComp (fun c => set_layouts (interpolateLayout (layouts c)) c) ;;
        ready <- getPlat (fun p => camReady p (camVideo l)) ;;
        ws <- getRef webcamStream ;;
        when (ready && isSome ws)
          (cur <- getComp (fun c => currentLayout (layouts c)) ;;
           let bubbleRadius := Zmin_Q (loop_cw l) (loop_ch l) * layout_size cur in
           let cx := inject_Z (loop_cw l) * layout_x cur in
           let cy := inject_Z (loop_ch l) * layout_y cur in
           effect (EDrawOverlay loop cx cy bubbleRadius)) ;;
        h' <- requestAnimationFrame loop ;;
        setComp (set_animationFrameId (Some h'))
  end.

(** [startCompositingLoop(canvas, ctx, dispVideo, camVideo)]; the result is
    the index of the new closure, which also names its canvas. *)
Definition startCompositingLoop (cw ch : Z) (disp : nat) (cam : option nat) : M nat :=
  n <- getPlat (fun p => List.length (loops p)) ;;
  setPlat (fun p => set_loops (loops p ++ [mkLoop cw ch 0 disp cam]) p) ;;
  _ <- requestAnimationFrame n ;;
  ret n.

(** The platform's animation frame at time [timestamp]: every callback
    pending at its start runs once, in order; callbacks requested meanwhile
    wait for the next frame. *)
Definition animationFrame (timestamp : Q) (s : State) : State :=
  let pending := rafQueue (plat s) in
  fold_left (fun st cb => runCallback (compositeFrame (snd cb) timestamp) st)
            pending
            (updPlat (set_rafQueue []) s).

(* ================================================================== *)
(** ** Timer (lines 484-496) *)

Definition startTimer : M unit :=
  setRef (set_recordingTime 0%nat) ;;
  h <- fresh ;;
  setPlat (fun p => set_intervals (intervals p ++ [h]) p) ;;
  setVar (set_timerInterval (Some h)).

Definition stopTimer : M unit :=
  t <- getVar timerInterval ;;
  match t with
  | Some h =>
      setPlat (fun p => set_intervals (filter (fun k => negb (Nat.eqb k h)) (intervals p)) p) ;;
      setVar (set_timerInterval None)
  | None => ret tt
  end.

(** The one-second callback of interval [h]. *)
Definition timerTick (h : nat) : M unit :=
  live <- getPlat (fun p => existsb (Nat.eqb h) (intervals p)) ;;
  when live (n <- getRef recordingTime ;; setRef (set_recordingTime (S n))).

(* ================================================================== *)
(** ** Cleanup (lines 498-534) *)

Definition detach (v : VideoEl) : VideoEl :=
  mkVideoEl None (muted v) true (readyState v).

(** [el.pause(); el.srcObject = null] *)
Definition pauseAndDetach (el : nat) : M unit :=
  effect (EPause el) ;;
  setPlat (fun p => set_videoEls (updateAt el detach (videoEls p)) p).

Definition cleanup : M unit :=
  effect ECleanup ;;
  (id <- getComp animationFrameId ;;
   match id with
   | Some h => cancelAnimationFrame h ;; setComp (set_animationFrameId None)
   | None => ret tt
   end) ;;
  (d <- getComp displayVideoEl ;;
   match d with
   | Some el => pauseAndDetach el ;; setComp (set_displayVideoEl None)
   | None => ret tt
   end) ;;
  (w <- getComp webcamVideoEl ;;
   match w with
   | Some el => pauseAndDetach el ;; setComp (set_webcamVideoEl None)
   | None => ret tt
   end) ;;
  (ds <- getVar displayStream ;;
   match ds with
   | Some stream => stopTracks stream ;; setVar (set_displayStream None)
   | None => ret tt
   end) ;;
  (ms <- getVar mediaStream ;;
   match ms with
   | Some stream => stopTracks stream ;; setVar (set_mediaStream None)
   | None => ret tt
   end) ;;
  (ac <- getVar audioContext ;;
   match ac with
   | Some ctx =>
       effect (ECloseAudio ctx) ;;
       setVar (set_audioContext None) ;;
       setVar (set_audioDestination None)
   | None => ret tt
   end) ;;
  stopTimer ;;
  stopWebcam.

(* ================================================================== *)
(** ** MIME type selection (lines 536-551) *)

Definition mimeTypes : list string :=
  [ "video/webm;codecs=vp8,opus";
    "video/webm;codecs=vp9,opus";
    "video/webm";
    "video/mp4" ].

Definition getSupportedMimeType (b : Browser) : option string :=
  find (isTypeSupported b) mimeTypes.

(* ================================================================== *)
(** ** Starting a session (lines 186-404) *)

Inductive PlayOutcome : Type :=
| PlayRejected (f : PlatformFailure)
| PlayStarted (ready : nat).   (* [readyState] once playback has started *)

(** What [getDisplayMedia] grants: the stream and the settings of its
    first video track. *)
Record DisplayCapture : Type := mkDisplayCapture {
  dc_stream : MediaStream;
  dc_width : option N;
  dc_height : option N
}.

(** The answers of the platform to one [startRecording()] call. *)
Record StartEnv : Type := mkStartEnv {
  env_display : PlatformFailure + DisplayCapture;
  env_mic : PlatformFailure + MediaStream;
  env_webcam : PlatformFailure + MediaStream;
  env_play_display : PlayOutcome;
  env_play_webcam : PlayOutcome;
  env_canvas_track : bool;      (* [canvasStream.getVideoTracks()[0]] exists *)
  env_recorder_default : option PlatformFailure;
  env_recorder_explicit : option PlatformFailure;
  env_recorder_start : option PlatformFailure
}.

(** [el = document.createElement('video')] *)
Definition createVideo : M nat :=
  n <- getPlat (fun p => List.length (videoEls p)) ;;
  setPlat (fun p => set_videoEls (videoEls p ++ [mkVideoEl None false true 0%nat]) p) ;;
  ret n.

(** [el.srcObject = stream; el.muted = true; await el.play()] *)
Definition bindAndPlay (op : PlatformOp) (el : nat) (stream : MediaStream)
    (outcome : PlayOutcome) : M unit :=
  setPlat (fun p => set_videoEls
    (updateAt el (fun v => mkVideoEl (Some stream) true (paused v) (readyState v)) (videoEls p)) p) ;;
  match outcome with
  | PlayRejected f => throw (platformErr op f)
  | PlayStarted ready =>
      setPlat (fun p => set_videoEls
        (updateAt el (fun v => mkVideoEl (srcObject v) (muted v) false ready) (videoEls p)) p)
  end.

(** [track.onended = () => { ... }] *)
Definition setOnended (t : Track) : M unit :=
  setPlat (fun p => set_endedHandler (endedHandler p ++ [t]) p).

(** [mediaRecorder = new MediaRecorder(...)]; [mimeType] is the constant
    the handlers installed next close over. *)
Definition newRecorder (op : PlatformOp) (fails : option PlatformFailure)
    (mimeType : string) (explicit : bool) : M unit :=
  callPlatform op fails ;;
  setVar (set_mediaRecorder (Some (mkRecorder Inactive mimeType explicit))).

Definition setRecorderState (st : RecorderState) : M unit :=
  setVar (fun x =>
    set_mediaRecorder
      (option_map (fun r => mkRecorder st (rec_mimeType r) (rec_explicit r)) (mediaRecorder x)) x).

Definition startRecording (b : Browser) (env : StartEnv) : M unit :=
  supported <- getRef isBrowserSupported ;;
  if negb supported then
    throw (newError "Browser does not support screen recording")
  else
  tryCatch
    (setRef (set_error None) ;;
     setVar (set_chunks []) ;;
     capture <- awaitPlatform GetDisplayMedia (env_display env) ;;
     let display := dc_stream capture in
     setVar (set_displayStream (Some display)) ;;
     log "Display stream tracks:" ;;
     micStream <-
       tryCatch
         (m <- awaitPlatform GetUserMediaMic (env_mic env) ;;
          log "Microphone stream tracks:" ;;
          ret (Some m))
         (fun micError =>
          warn "Could not access microphone:" ;;
          ret None) ;;
     enabled <- getRef webcamEnabled ;;
     held <- getRef webcamStream ;;
     when (enabled && negb (isSome held))
       (_ <- initWebcam (env_webcam env) ;; ret tt) ;;
     let hasSystemAudio := negb (Nat.eqb (List.length (getAudioTracks display)) 0) in
     let hasMicAudio := isSome micStream in
     finalAudioStream <-
       (if hasSystemAudio || hasMicAudio then
          ctx <- fresh ;;
          setVar (set_audioContext (Some ctx)) ;;
          setVar (set_audioDestination (Some ctx)) ;;
          when hasSystemAudio
            (effect (EConnect ctx SystemAudio) ;;
             log "Connected system audio to mixer") ;;
          when (hasMicAudio && isSome micStream)
            (effect (EConnect ctx MicAudio) ;;
             log "Connected microphone audio to mixer") ;;
          log "Mixed audio stream created" ;;
          ret (Some [MixedTrack ctx])
        else ret None) ;;
     match getVideoTracks display with
     | [] => throw (newError "No video track available from screen capture")
     | originalDisplayTrack :: _ =>
         cam <- getRef webcamStream ;;
         finalVideoTrack <-
           match cam with
           | Some camStream =>
               let size := canvasSize (dc_width capture) (dc_height capture) in
               log "Recording canvas size" ;;
               dEl <- createVideo ;;
               setComp (set_displayVideoEl (Some dEl)) ;;
               bindAndPlay PlayDisplay dEl display (env_play_display env) ;;
               wEl <- createVideo ;;
               setComp (set_webcamVideoEl (Some wEl)) ;;
               bindAndPlay PlayWebcam wEl camStream (env_play_webcam env) ;;
               canvas <- startCompositingLoop (fst size) (snd size) dEl (Some wEl) ;;
               if env_canvas_track env then
                 setOnended originalDisplayTrack ;;
                 ret (CanvasTrack canvas)
               else
                 throw (newError "Failed to capture video from compositing canvas")
           | None =>
               setOnended originalDisplayTrack ;;
               ret originalDisplayTrack
           end ;;
         setVar (set_mediaStream
           (Some (finalVideoTrack ::
                    match finalAudioStream with
                    | Some audio => getAudioTracks audio
                    | None => []
                    end))) ;;
         log "Final MediaStream tracks:" ;;
         log "Using MIME type:" ;;
         match getSupportedMimeType b with
         | None => throw (newError "No supported video MIME type found")
         | Some mimeType =>
             tryCatch
               (newRecorder NewRecorderDefault (env_recorder_default env) mimeType false ;;
                log "MediaRecorder created with default mimeType:")
               (fun _ =>
                log "Failed to create with default, trying explicit mimeType:" ;;
                newRecorder NewRecorderExplicit (env_recorder_explicit env) mimeType true) ;;
             log "Starting MediaRecorder..." ;;
             callPlatform RecorderStart (env_recorder_start env) ;;
             setRecorderState Recording ;;
             effect ERecorderStart ;;
             setRef (set_isRecording true) ;;
             startTimer ;;
             log "MediaRecorder started, state:"
         end
     end)
    (fun err =>
     logError "Error starting recording:" ;;
     setRef (set_error
       (Some (if err_is_Error err then err_message err else "Failed to start recording"))) ;;
     cleanup ;;
     throw err).

(* ================================================================== *)
(** ** Recorder event handlers (lines 355-390) *)

(** [mediaRecorder.ondataavailable]; [data] is [event.data]. *)
Definition ondataavailable (data : option Blob) : M unit :=
  log "ondataavailable fired, data size:" ;;
  match data with
  | Some d =>
      when (0 <? blob_size d)%N
        (setVar (fun x => set_chunks (chunks x ++ [d]) x) ;;
         log "Chunk added, total chunks:")
  | None => ret tt
  end.

(** The closure [(blob) => { cleanup(); resolve(blob) }] stored in
    [stopResolve], called. *)
Definition callStopResolve (blob : Blob) : M unit :=
  f <- getVar stopResolve ;;
  match f with
  | Some p => cleanup ;; effect (ESettle p (Resolved blob))
  | None => throw (notAFunction "stopResolve")
  end.

(** The closure [(err) => { cleanup(); reject(err) }] stored in
    [stopReject], called. *)
Definition callStopReject (err : Err) : M unit :=
  f <- getVar stopReject ;;
  match f with
  | Some p => cleanup ;; effect (ESettle p (Rejected err))
  | None => throw (notAFunction "stopReject")
  end.

(** [mediaRecorder.onstop] of the recorder held in [mediaRecorder]. *)
Definition onstop : M unit :=
  mr <- getVar mediaRecorder ;;
  match mr with
  | None => ret tt
  | Some r =>
      log "MediaRecorder stopped, chunks:" ;;
      cs <- getVar chunks ;;
      let blob := newBlob cs (rec_mimeType r) in
      setRef (set_previewUrl (Some (BlobUrl blob))) ;;
      setRef (set_isRecording false) ;;
      stopTimer ;;
      pending <- getVar stopResolve ;;
      when (isSome pending)
        (callStopResolve blob ;;
         setVar (set_stopResolve None) ;;
         setVar (set_stopReject None))
  end.

(** [mediaRecorder.onerror] *)
Definition onerror : M unit :=
  mr <- getVar mediaRecorder ;;
  match mr with
  | None => ret tt
  | Some _ =>
      logError "MediaRecorder error:" ;;
      setRef (set_error (Some "Recording error occurred")) ;;
      pending <- getVar stopReject ;;
      when (isSome pending)
        (callStopReject (newError "Recording error occurred") ;;
         setVar (set_stopResolve None) ;;
         setVar (set_stopReject None)) ;;
      cleanup
  end.

Definition isRecordingState (r : Recorder) : bool :=
  match rec_state r with Recording => true | _ => false end.

Definition isInactive (r : Recorder) : bool :=
  match rec_state r with Inactive => true | _ => false end.

(** [mediaRecorder.stop()]: throws when the platform says so; otherwise
    the recorder is inactive from here on and the platform will deliver
    the last data and the stop event later. *)
Definition recorderStop (fails : option PlatformFailure) : M unit :=
  callPlatform RecorderStopCall fails ;;
  setRecorderState Inactive ;;
  effect ERecorderStop.

(** The [onended] handler of the display track (lines 305-310, 315-320). *)
Definition onended : M unit :=
  log "Display stream ended by user" ;;
  rec <- getRef isRecording ;;
  mr <- getVar mediaRecorder ;;
  match mr with
  | Some r => when (rec && isRecordingState r) (recorderStop None)
  | None => ret tt
  end.

(* ================================================================== *)
(** ** Stopping a session (lines 406-482) *)

Definition finishStop (b : Browser) : M unit :=
  let type :=
    match getSupportedMimeType b with
    | Some t => t
    | None => "video/webm"
    end in
  cs <- getVar chunks ;;
  let blob := newBlob cs type in
  log "Created blob, size:" ;;
  (if (0 <? blob_size blob)%N then
     setRef (set_previewUrl (Some (BlobUrl blob))) ;;
     setRef (set_isRecording false) ;;
     stopTimer ;;
     callStopResolve blob
   else
     callStopReject (newError "No data recorded")) ;;
  setVar (set_stopResolve None) ;;
  setVar (set_stopReject None) ;;
  cleanup.

Definition setTimeout (cb : TimeoutCallback) : M unit :=
  setPlat (fun p => set_timeouts (timeouts p ++ [cb]) p).

(** The 3000 ms callback; [requestDataFails] is what
    [mediaRecorder.requestData()] does if it is reached. *)
Definition safetyTimeout (b : Browser) (requestDataFails : option PlatformFailure) : M unit :=
  pending <- getVar stopResolve ;;
  when (isSome pending)
    (warn "onstop event did not fire within 3 seconds, forcing stop" ;;
     log "Chunks available:" ;;
     mr <- getVar mediaRecorder ;;
     deferred <-
       (if match mr with Some r => isRecordingState r | None => false end then
          tryCatch
            (callPlatform RequestData requestDataFails ;;
             effect ERequestData ;;
             setTimeout FinishStopTimeout ;;
             ret true)
            (fun e =>
             logError "requestData failed:" ;;
             ret false)
        else ret false) ;;
     if deferred : bool then ret tt else finishStop b).

(** [stopRecording()]; the result names the promise it returns.
    [stopFails] is what [mediaRecorder.stop()] does if it is reached. *)
Definition stopRecording (stopFails : option PlatformFailure) : M nat :=
  log "stopRecording called, mediaRecorder state:" ;;
  p <- fresh ;;
  mr <- getVar mediaRecorder ;;
  match mr with
  | None =>
      effect (ESettle p (Rejected (newError "No active recording"))) ;;
      ret p
  | Some r =>
      if isInactive r then
        effect (ESettle p (Rejected (newError "Recording already stopped"))) ;;
        ret p
      else
        setVar (set_stopResolve (Some p)) ;;
        setVar (set_stopReject (Some p)) ;;
        tryCatch
          (log "Current chunks before stop:" ;;
           log "Calling mediaRecorder.stop()" ;;
           recorderStop stopFails ;;
           setTimeout SafetyTimeout)
          (fun err =>
           logError "Error calling stop():" ;;
           setVar (set_stopResolve None) ;;
           setVar (set_stopReject None) ;;
           cleanup ;;
           effect (ESettle p
             (Rejected (newError (String.append "Failed to stop recording: " (errToString err)))))) ;;
        ret p
  end.

(** [onUnmounted] *)
Definition unmounted : M unit :=
  cleanup ;;
  stopWebcam.

(* ================================================================== *)
(** ** What can happen to an instance *)

Inductive Event : Type :=
| CallStartRecording (env : StartEnv)
| CallStopRecording (stopFails : option PlatformFailure)
| CallToggleWebcam (cam : PlatformFailure + MediaStream)
| CallInitWebcam (cam : PlatformFailure + MediaStream)
| CallSetWebcamLayout (layout : Layout)
| AnimationFrame (timestamp : Q)
| DataAvailable (data : option Blob)
| RecorderStopped
| RecorderError
| TrackEnded (t : Track)
| TimeoutFires (cb : TimeoutCallback) (requestDataFails : option PlatformFailure)
| IntervalTick (h : nat)
| Unmounted.

(** One event, run to completion.  The [await]s of an [async] function
    are answered from the event's arguments without other events in
    between. *)
Definition dispatch (b : Browser) (ev : Event) (s : State) : State :=
  match ev with
  | CallStartRecording env => snd (startRecording b env s)
  | CallStopRecording stopFails => snd (stopRecording stopFails s)
  | CallToggleWebcam cam => snd (toggleWebcam cam s)
  | CallInitWebcam cam => snd (initWebcam cam s)
  | CallSetWebcamLayout layout =>
      updComp (fun c => set_layouts (setWebcamLayout layout (layouts c)) c) s
  | AnimationFrame timestamp => animationFrame timestamp s
  | DataAvailable data => runCallback (ondataavailable data) s
  | RecorderStopped => runCallback onstop s
  | RecorderError => runCallback onerror s
  | TrackEnded t =>
      if existsb (track_eqb t) (endedHandler (plat s)) then runCallback onended s else s
  | TimeoutFires cb requestDataFails =>
      if existsb (isTimeout cb) (timeouts (plat s)) then
        let s' := updPlat (fun p => set_timeouts (removeFirst cb (timeouts p)) p) s in
        match cb with
        | SafetyTimeout => runCallback (safetyTimeout b requestDataFails) s'
        | FinishStopTimeout => runCallback (finishStop b) s'
        end
      else s
  | IntervalTick h => runCallback (timerTick h) s
  | Unmounted => runCallback unmounted s
  end.

Definition run (b : Browser) (evs : list Event) (s : State) : State :=
  fold_left (fun st ev => dispatch b ev st) evs s.

(** *** Reading a trace *)

Definition isCleanup (e : Effect) : bool :=
  match e with ECleanup => true | _ => false end.

Definition isSettle (e : Effect) : bool :=
  match e with ESettle _ _ => true | _ => false end.

Definition isDraw (e : Effect) : bool :=
  match e with EDrawBackground _ | EDrawOverlay _ _ _ _ => true | _ => false end.

Definition isOverlay (e : Effect) : bool :=
  match e with EDrawOverlay _ _ _ _ => true | _ => false end.

Definition isBackground (e : Effect) : bool :=
  match e with EDrawBackground _ => true | _ => false end.

Definition isCancel (e : Effect) : bool :=
  match e with ECancelAnimationFrame _ => true | _ => false end.

(** The calls of [cleanup] and the promise settlements, in order. *)
Definition milestones (t : list Effect) : list Effect :=
  filter (fun e => isCleanup e || isSettle e) t.

Definition cleanupCount (t : list Effect) : nat :=
  List.length (filter isCleanup t).

(** How the promise [p] was settled: the first [resolve]/[reject] call
    counts. *)
Fixpoint outcome (p : nat) (t : list Effect) : option Settlement :=
  match t with
  | [] => None
  | ESettle q o :: t' => if Nat.eqb q p then Some o else outcome p t'
  | _ :: t' => outcome p t'
  end.

(** *** Reading the platform's answers *)

(** [displayStream.getVideoTracks()[0]] of the stream [getDisplayMedia]
    grants. *)
Definition displayVideoTrack (env : StartEnv) : option Track :=
  match env_display env with
  | inr capture => hd_error (getVideoTracks (dc_stream capture))
  | inl _ => None
  end.

(** Is there any audio to mix: tab or system audio in the display stream,
    or a microphone stream. *)
Definition hasAudioSource (env : StartEnv) : bool :=
  match env_display env with
  | inr capture =>
      negb (Nat.eqb (List.length (getAudioTracks (dc_stream capture))) 0)
      || match env_mic env with inr _ => true | inl _ => false end
  | inl _ => false
  end.

(** *** A concrete browser and concrete platform answers *)

Definition chrome : Browser :=
  {| has_mediaDevices := true; has_getDisplayMedia := true;
     has_MediaRecorder := true;
     isTypeSupported := fun t => negb (String.eqb t "video/mp4") |}.

Definition denied : PlatformFailure :=
  {| pf_is_Error := true; pf_name := "NotAllowedError"; pf_message := "Permission denied" |}.

Definition screenTrack : Track := SourceTrack 10 VideoKind.
Definition tabAudioTrack : Track := SourceTrack 11 AudioKind.
Definition micTrack : Track := SourceTrack 20 AudioKind.
Definition camTrack : Track := SourceTrack 30 VideoKind.

(** Screen share of a 2560x1440 display without tab audio; microphone
    and camera both granted. *)
Definition envAll : StartEnv :=
  {| env_display := inr (mkDisplayCapture [screenTrack] (Some 2560%N) (Some 1440%N));
     env_mic := inr [micTrack];
     env_webcam := inr [camTrack];
     env_play_display := PlayStarted 4;
     env_play_webcam := PlayStarted 4;
     env_canvas_track := true;
     env_recorder_default := None;
     env_recorder_explicit := None;
     env_recorder_start := None |}.

(** The same with microphone and camera both refused. *)
Definition envScreenOnly : StartEnv :=
  {| env_display := inr (mkDisplayCapture [screenTrack] (Some 2560%N) (Some 1440%N));
     env_mic := inl denied;
     env_webcam := inl denied;
     env_play_display := PlayStarted 4;
     env_play_webcam := PlayStarted 4;
     env_canvas_track := true;
     env_recorder_default := None;
     env_recorder_explicit := None;
     env_recorder_start := None |}.

(* ================================================================== *)
(** ** Elapsed-time display (lines 553-562) *)

(** [n.toString()] of a non-negative integer. *)
Definition toString (n : nat) : string :=
  DecimalString.NilEmpty.string_of_uint (Nat.to_uint n).

(** [s.padStart(2, '0')] *)
Definition padStart2 (s : string) : string :=
  match String.length s with
  | O => "00"
  | S O => String "0"%char s
  | _ => s
  end.

(** [formatTime(seconds)] for a whole number of seconds, as
    [recordingTime] is. *)
Definition formatTime (seconds : nat) : string :=
  let hrs := (seconds / 3600)%nat in
  let mins := ((seconds mod 3600) / 60)%nat in
  let secs := (seconds mod 60)%nat in
  if (0 <? hrs)%nat then
    String.append (toString hrs)
      (String ":"%char (String.append (padStart2 (toString mins))
         (String ":"%char (padStart2 (toString secs)))))
  else
    String.append (toString mins) (String ":"%char (padStart2 (toString secs))).

(** Reading a displayed time back: [s.split(':')], each field as a
    decimal number. *)
Fixpoint splitColon (s : string) : list string :=
  match s with
  | EmptyString => [EmptyString]
  | String c rest =>
      if Ascii.eqb c ":"%char then EmptyString :: splitColon rest
      else
        match splitColon rest with
        | field :: fields => String c field :: fields
        | [] => [String c EmptyString]
        end
  end.

Definition parseNat (s : string) : option nat :=
  match s with
  | EmptyString => None
  | _ => option_map Nat.of_uint (DecimalString.NilEmpty.uint_of_string s)
  end.

Definition parseTime (s : string) : option nat :=
  match map parseNat (splitColon s) with
  | [Some m; Some sec] => Some (m * 60 + sec)%nat
  | [Some h; Some m; Some sec] => Some (h * 3600 + m * 60 + sec)%nat
  | _ => None
  end.

(* ================================================================== *)
(** ** The layout buttons of the recording controls
    (RecordingControls, [setLayout], lines 36-63) *)

Inductive LayoutMode : Type := ModeTL | ModeTR | ModeBL | ModeBR | ModeCenter.

(** The [layout] object [setLayout(mode)] builds. *)
Definition presetLayout (mode : LayoutMode) : Layout :=
  match mode with
  | ModeTL => {| layout_x := 1 # 10; layout_y := 15 # 100; layout_size := 9 # 100 |}
  | ModeTR => {| layout_x := 9 # 10; layout_y := 15 # 100; layout_size := 9 # 100 |}
  | ModeBL => {| layout_x := 1 # 10; layout_y := 85 # 100; layout_size := 9 # 100 |}
  | ModeBR => {| layout_x := 9 # 10; layout_y := 85 # 100; layout_size := 9 # 100 |}
  | ModeCenter => {| layout_x := 1 # 2; layout_y := 1 # 2; layout_size := 27 # 100 |}
  end.

(** [setLayout(mode)], seen from the composable: the call
    [setWebcamLayout(layout)]. *)
Definition setLayout (mode : LayoutMode) : Event :=
  CallSetWebcamLayout (presetLayout mode).

(* ================================================================== *)
(** ** Vocabulary of the properties *)

(** Effects that are neither a milestone nor a draw. *)
Definition quietEffect (e : Effect) : Prop :=
  isCleanup e = false /\ isSettle e = false /\ isDraw e = false.

(** What one call of [cleanup] does to a state. *)
Record Cleaned (s s' : State) : Prop := mkCleaned {
  cl_isRecording : isRecording (refs s') = isRecording (refs s);
  cl_recordingTime : recordingTime (refs s') = recordingTime (refs s);
  cl_error : error (refs s') = error (refs s);
  cl_previewUrl : previewUrl (refs s') = previewUrl (refs s);
  cl_isBrowserSupported : isBrowserSupported (refs s') = isBrowserSupported (refs s);
  cl_webcamEnabled : webcamEnabled (refs s') = webcamEnabled (refs s);
  cl_webcamStream : webcamStream (refs s') = None;
  cl_recorder : mediaRecorder (vars s') = mediaRecorder (vars s);
  cl_chunks : chunks (vars s') = chunks (vars s);
  cl_resolve : stopResolve (vars s') = stopResolve (vars s);
  cl_reject : stopReject (vars s') = stopReject (vars s);
  cl_mediaStream : mediaStream (vars s') = None;
  cl_displayStream : displayStream (vars s') = None;
  cl_audioContext : audioContext (vars s') = None;
  cl_timerInterval : timerInterval (vars s') = None;
  cl_layouts : layouts (comp s') = layouts (comp s);
  cl_animationFrameId : animationFrameId (comp s') = None;
  cl_displayVideoEl : displayVideoEl (comp s') = None;
  cl_webcamVideoEl : webcamVideoEl (comp s') = None;
  cl_loops : loops (plat s') = loops (plat s);
  cl_timeouts : timeouts (plat s') = timeouts (plat s);
  cl_endedHandler : endedHandler (plat s') = endedHandler (plat s);
  cl_nextHandle : nextHandle (plat s') = nextHandle (plat s);
  cl_rafQueue :
    rafQueue (plat s') =
      match animationFrameId (comp s) with
      | Some h => filter (fun cb => negb (Nat.eqb (fst cb) h)) (rafQueue (plat s))
      | None => rafQueue (plat s)
      end;
  cl_console : console s' = console s;
  cl_trace : exists fx, trace s' = trace s ++ ECleanup :: fx /\ Forall quietEffect fx
}.

(** A session that was started on a screen only and asked to stop. *)
Definition stoppingSession : State :=
  run chrome [CallStartRecording envScreenOnly; CallStopRecording None]
      (initialState chrome).

(** A session that is recording the screen only. *)
Definition recordingSession : State :=
  run chrome [CallStartRecording envScreenOnly] (initialState chrome).

(** A session with the webcam bubble, after its first drawn frame. *)
Definition compositedSession : State :=
  run chrome [CallStartRecording envAll; AnimationFrame 50] (initialState chrome).

(** The platform answers of [envAll], except that the canvas yields no
    video track: [startRecording] fails right after starting the loop. *)
Definition envNoCanvasTrack : StartEnv :=
  {| env_display := env_display envAll;
     env_mic := env_mic envAll;
     env_webcam := env_webcam envAll;
     env_play_display := PlayStarted 4;
     env_play_webcam := PlayStarted 4;
     env_canvas_track := false;
     env_recorder_default := None;
     env_recorder_explicit := None;
     env_recorder_start := None |}.

Definition throwsOnly {A} (P : Err -> Prop) (m : M A) : Prop :=
  forall s e, fst (m s) = Throw e -> P e.


(** Every blob this instance has sealed so far carries one of the four
    candidate types: the blobs its stop promises were resolved with, the
    blob behind [previewUrl], and what the handlers of the current
    recorder will label the next one with. *)
Record ContentTypesOk (s : State) : Prop := mkContentTypesOk {
  ct_recorder :
    forall r, mediaRecorder (vars s) = Some r -> In (rec_mimeType r) mimeTypes;
  ct_settled :
    forall p bl, In (ESettle p (Resolved bl)) (trace s) -> In (blob_type bl) mimeTypes;
  ct_preview :
    forall bl, previewUrl (refs s) = Some (BlobUrl bl) -> In (blob_type bl) mimeTypes
}.

Definition keeps {A} (m : M A) : Prop :=
  forall s, ContentTypesOk s -> ContentTypesOk (snd (m s)).

Definition fails {A} (m : M A) : Prop := forall s, exists e, fst (m s) = Throw e.

(** A string without a colon: splitting it gives itself. *)
Definition noColon (s : string) : Prop := splitColon s = [s].

(** A property of the state that a statement never breaks, whether it
    returns or throws. *)
Definition preserves {A} (I : State -> Prop) (m : M A) : Prop :=
  forall s, I s -> I (snd (m s)).

(** The instance of an unsupported browser: nothing was or is being
    recorded and the support message is on display. *)
Record Unsupported (message : option string) (s : State) : Prop := mkUnsupported {
  un_supported : isBrowserSupported (refs s) = false;
  un_isRecording : isRecording (refs s) = false;
  un_recorder : mediaRecorder (vars s) = None;
  un_error : error (refs s) = message;
  un_previewUrl : previewUrl (refs s) = None;
  un_timeouts : timeouts (plat s) = [];
  un_started : In ERecorderStart (trace s) -> False
}.

(** A browser without [navigator.mediaDevices]. *)
Definition oldBrowser : Browser :=
  {| has_mediaDevices := false; has_getDisplayMedia := false;
     has_MediaRecorder := true; isTypeSupported := fun _ => true |}.

(** There is a preview. *)
Definition hasPreview (s : State) : Prop := previewUrl (refs s) <> None.

(** No stored chunk is empty. *)
Definition chunksNonEmpty (s : State) : Prop :=
  Forall (fun c => (0 < blob_size c)%N) (chunks (vars s)).

(** What a run of [dataavailable] events leaves in [chunks]: the blobs
    of positive size, in the order of arrival. *)
Definition storedData (data : list (option Blob)) : list Blob :=
  flat_map (fun d =>
              match d with
              | Some bl => if (0 <? blob_size bl)%N then [bl] else []
              | None => []
              end) data.

(** The number of bytes a run of [dataavailable] events delivers. *)
Definition deliveredBytes (data : list (option Blob)) : N :=
  fold_right (fun d acc =>
                match d with
                | Some bl => (blob_size bl + acc)%N
                | None => acc
                end) 0%N data.

(** Events within a session: anything but a new [startRecording()]. *)
Definition withinSession (ev : Event) : bool :=
  match ev with CallStartRecording _ => false | _ => true end.

(** No compositing loop exists and the frames drawn so far are [drawn]. *)
Definition noLoop (drawn : list Effect) (s : State) : Prop :=
  loops (plat s) = [] /\ filter isDraw (trace s) = drawn.

(** How many frames loop [loop] has drawn. *)
Definition drawsOf (loop : nat) (t : list Effect) : nat :=
  List.length
    (filter (fun e => match e with EDrawBackground l => Nat.eqb l loop | _ => false end) t).

(** When loop [loop] drew its last frame. *)
Definition lastDrawn (loop : nat) (s : State) : option Q :=
  option_map lastFrameTime (nth_error (loops (plat s)) loop).

(** Every pending callback belongs to a loop that exists. *)
Definition pendingBound (s : State) : Prop :=
  forall cb, In cb (rafQueue (plat s)) -> (snd cb < List.length (loops (plat s)))%nat.


(** If [m] returns from a state in [P], it leaves a state in [Q]. *)
Definition hoare {A} (P : State -> Prop) (m : M A) (Q : State -> Prop) : Prop :=
  forall s a s', P s -> m s = (Ok a, s') -> Q s'.

(** A normalized layout whose bubble lies within the unit square. *)
Definition bubbleFits (l : Layout) : Prop :=
  0 <= layout_size l /\
  layout_size l <= layout_x l /\ layout_x l + layout_size l <= 1 /\
  layout_size l <= layout_y l /\ layout_y l + layout_size l <= 1.

(** The circle of centre [(cx, cy)] and radius [r] lies within a canvas
    of [cw] by [ch] pixels. *)
Definition onCanvas (cw ch : Z) (cx cy r : Q) : Prop :=
  0 <= r /\
  0 <= cx - r /\ cx + r <= inject_Z cw /\
  0 <= cy - r /\ cy + r <= inject_Z ch.

(** The size of the canvas loop [loop] draws on. *)
Definition canvasOf (s : State) (loop : nat) : option (Z * Z) :=
  option_map (fun l => (loop_cw l, loop_ch l)) (nth_error (loops (plat s)) loop).

(** Layout requests that keep the bubble within the unit square. *)
Definition layoutEventFits (ev : Event) : Prop :=
  match ev with
  | CallSetWebcamLayout l => bubbleFits l
  | _ => True
  end.

(** Calls and events as the recording controls make them: a layout
    request carries the layout of one of the five buttons. *)
Definition fromControls (ev : Event) : Prop :=
  match ev with
  | CallSetWebcamLayout l => exists mode, l = presetLayout mode
  | _ => True
  end.

Record BubbleOnCanvas (s : State) : Prop := mkBubbleOnCanvas {
  bc_current : bubbleFits (currentLayout (layouts (comp s)));
  bc_target : bubbleFits (targetLayout (layouts (comp s)));
  bc_loops :
    forall loop cw ch, canvasOf s loop = Some (cw, ch) -> (0 <= cw)%Z /\ (0 <= ch)%Z;
  bc_drawn :
    forall loop cx cy r, In (EDrawOverlay loop cx cy r) (trace s) ->
      exists cw ch, canvasOf s loop = Some (cw, ch) /\ onCanvas cw ch cx cy r
}.

(** [track.stop()] on every track of a stream that may be [null]. *)
Definition stopsOf (stream : option MediaStream) : list Effect :=
  match stream with
  | Some tracks => map ETrackStop tracks
  | None => []
  end.

(** The platform calls one [cleanup] makes, in order. *)
Definition releaseCalls (s : State) : list Effect :=
  match animationFrameId (comp s) with Some h => [ECancelAnimationFrame h] | None => [] end
  ++ match displayVideoEl (comp s) with Some el => [EPause el] | None => [] end
  ++ match webcamVideoEl (comp s) with Some el => [EPause el] | None => [] end
  ++ stopsOf (displayStream (vars s))
  ++ stopsOf (mediaStream (vars s))
  ++ match audioContext (vars s) with Some ctx => [ECloseAudio ctx] | None => [] end
  ++ stopsOf (webcamStream (refs s)).

(** Calls that end or release something. *)
Definition isRelease (e : Effect) : bool :=
  match e with
  | ECleanup | ETrackStop _ | ECancelAnimationFrame _ | EPause _ | ECloseAudio _
  | ERecorderStop => true
  | _ => false
  end.

(** Nothing was released since the trace read [released] and the live
    intervals were [live]. *)
Definition nothingReleased (released : list Effect) (live : list nat) (s : State) : Prop :=
  filter isRelease (trace s) = released /\ intervals (plat s) = live.



(* ================================================================== *)
(** * Properties *)

(** ** Layout easing *)

Section Easing.




Lemma target_interpolate (ls : LayoutState) :
  targetLayout (interpolateLayout ls) = targetLayout ls.
Proof. reflexivity. Qed.














End Easing.

(** C9.  [setWebcamLayout] stores its argument as the new target and leaves
    [currentLayout] as it was: the current layout never snaps. *)
Theorem setWebcamLayout_does_not_snap (b : Browser) (layout : Layout) (s : State) :
  let s' := dispatch b (CallSetWebcamLayout layout) s in
  targetLayout (layouts (comp s')) = layout /\
  currentLayout (layouts (comp s')) = currentLayout (layouts (comp s)) /\
  refs s' = refs s /\ vars s' = vars s /\ plat s' = plat s /\ trace s' = trace s.
Proof.
  destruct layout; cbn. repeat split.
Qed.




(* ================================================================== *)
(** ** Canvas resolution *)

Section CanvasSize.


Lemma Math_round_le (q : Q) (z : Z) : q <= inject_Z z -> (Math_round q <= z)%Z.
Proof.
  intro Hq. unfold Math_round.
  destruct (Z_le_gt_dec (Qfloor (q + (1 # 2))) z) as [Hle|Hgt]; [exact Hle|exfalso].
  assert (Hz : (z + 1 <= Qfloor (q + (1 # 2)))%Z) by lia.
  rewrite Zle_Qle, inject_Z_plus in Hz. change (inject_Z 1) with 1 in Hz.
  pose proof (Qfloor_le (q + (1 # 2))). lra.
Qed.

Lemma Math_round_Z (z : Z) : Math_round (inject_Z z) = z.
Proof.
  apply Z.le_antisymm.
  - apply Math_round_le, Qle_refl.
  - unfold Math_round. rewrite <- (Qfloor_Z z) at 1.
    apply Qfloor_resp_le. lra.
Qed.

Lemma orDefault_pos (v : option N) (d : Z) : (0 < d)%Z -> (0 < orDefault v d)%Z.
Proof.
  intro Hd. unfold orDefault. destruct v as [n|]; [|exact Hd].
  destruct (N.eqb_spec n 0); [exact Hd | lia].
Qed.


Variables width height : Z.
Hypothesis width_pos : (0 < width)%Z.
Hypothesis height_pos : (0 < height)%Z.

Let qw := inject_Z width.
Let qh := inject_Z height.

Lemma qw_pos : 0 < qw.
Proof. unfold qw. change 0 with (inject_Z 0). rewrite <- Zlt_Qlt. exact width_pos. Qed.

Lemma qh_pos : 0 < qh.
Proof. unfold qh. change 0 with (inject_Z 0). rewrite <- Zlt_Qlt. exact height_pos. Qed.

Lemma ratio_bounds :
  0 < downscaleRatio width height /\
  qw * downscaleRatio width height <= 1920 /\
  qh * downscaleRatio width height <= 1080.
Proof.
  pose proof qw_pos as Hw. pose proof qh_pos as Hh.
  unfold downscaleRatio. fold qw qh.
  change (inject_Z MAX_WIDTH) with 1920. change (inject_Z MAX_HEIGHT) with 1080.
  assert (Ew : qw * (1920 / qw) == 1920) by (apply Qmult_div_r; lra).
  assert (Eh : qh * (1080 / qh) == 1080) by (apply Qmult_div_r; lra).
  assert (Pw : 0 < 1920 / qw) by (apply Qlt_shift_div_l; lra).
  assert (Ph : 0 < 1080 / qh) by (apply Qlt_shift_div_l; lra).
  pose proof (Q.le_min_l (1920 / qw) (1080 / qh)) as Ml.
  pose proof (Q.le_min_r (1920 / qw) (1080 / qh)) as Mr.
  pose proof (Q.min_glb_lt (1920 / qw) (1080 / qh) 0 Pw Ph) as Mp.
  repeat split; [exact Mp | nra | nra].
Qed.


End CanvasSize.



(** The same computation on doubles at some common capture sizes agrees
    with the exact one. *)
Example canvasSize_on_doubles :
  map (fun wh => F64.canvasSize (fst wh) (snd wh))
      [(1280, 720); (1920, 1080); (2560, 1440); (3840, 2160); (3440, 1440);
       (1921, 1); (2000, 3000); (5120, 2880); (1080, 1920)]%Z
  = map (fun wh => Some (canvasSize (Some (Z.to_N (fst wh))) (Some (Z.to_N (snd wh)))))
      [(1280, 720); (1920, 1080); (2560, 1440); (3840, 2160); (3440, 1440);
       (1921, 1); (2000, 3000); (5120, 2880); (1080, 1920)]%Z.
Proof. vm_compute. reflexivity. Qed.

(* ================================================================== *)
(** ** MIME type selection *)



(* ================================================================== *)
(** ** Cleanup *)

Lemma quiet_stops (l : list Track) : Forall quietEffect (map ETrackStop l).
Proof. induction l; constructor; [repeat split | assumption]. Qed.

Lemma milestones_app (t u : list Effect) :
  milestones (t ++ u) = milestones t ++ milestones u.
Proof. apply filter_app. Qed.

Lemma milestones_quiet (fx : list Effect) :
  Forall quietEffect fx -> milestones fx = [].
Proof.
  induction 1 as [|e fx (Hc & Hs & _) _ IH]; [reflexivity|].
  unfold milestones in *. cbn [filter]. now rewrite Hc, Hs.
Qed.

Lemma draws_quiet (fx : list Effect) :
  Forall quietEffect fx -> filter isDraw fx = [].
Proof.
  induction 1 as [|e fx (_ & _ & Hd) _ IH]; [reflexivity|].
  cbn [filter]. now rewrite Hd.
Qed.

(** Symbolic execution of a statement on a state whose branching fields
    are known: unfold the statements and the field updates, keep list and
    number operations folded. *)
Ltac exec :=
  cbv - [app map filter List.length existsb find nth_error updateAt removeFirst
         Nat.eqb N.ltb N.add Qle_bool Qplus Qminus Qmult Qdiv inject_Z Z.min
         interpolateLayout canvasSize getSupportedMimeType newBlob
         String.append errToString fold_right fold_left
         milestones cleanupCount outcome isCleanup isSettle isDraw isOverlay
         isTimeout blob_size blob_type isBackground isCancel camReady
         getVideoTracks getAudioTracks].

Ltac exec_in H :=
  cbv - [app map filter List.length existsb find nth_error updateAt removeFirst
         Nat.eqb N.ltb N.add Qle_bool Qplus Qminus Qmult Qdiv inject_Z Z.min
         interpolateLayout canvasSize getSupportedMimeType newBlob
         String.append errToString fold_right fold_left
         milestones cleanupCount outcome isCleanup isSettle isDraw isOverlay
         isTimeout blob_size blob_type isBackground isCancel camReady
         getVideoTracks getAudioTracks] in H.

Ltac quiet_list :=
  repeat first
    [ apply Forall_nil
    | apply quiet_stops
    | apply Forall_app; split
    | apply Forall_cons; [repeat split|] ].

Lemma cleanup_spec (s : State) :
  exists s', cleanup s = (Ok tt, s') /\ Cleaned s s'.
Proof.
  destruct s as [[rec tm er pu bs we ws] [mr ch ms ti sr sj ac ad ds]
                   [ly af dv wv] [ve lo rq iv to eh nh] tr co].
  destruct af, dv, wv, ds, ms, ac, ti, ws;
    (eexists; split; [exec; reflexivity|]);
    (constructor; cbn; try reflexivity);
    (eexists; split; [rewrite <- ?app_assoc; cbn [app]; reflexivity | quiet_list]).
Qed.

(** Execution that stops at [cleanup], to continue from [cleanup_spec]. *)
Ltac exec_to_cleanup :=
  cbv - [cleanup
         app map filter List.length existsb find nth_error updateAt removeFirst
         Nat.eqb N.ltb N.add Qle_bool Qplus Qminus Qmult Qdiv inject_Z Z.min
         interpolateLayout canvasSize getSupportedMimeType newBlob
         String.append errToString fold_right fold_left
         milestones cleanupCount outcome isCleanup isSettle isDraw isOverlay
         isTimeout blob_size blob_type isBackground isCancel camReady
         getVideoTracks getAudioTracks].

Ltac exec_to_cleanup_in H :=
  cbv - [cleanup
         app map filter List.length existsb find nth_error updateAt removeFirst
         Nat.eqb N.ltb N.add Qle_bool Qplus Qminus Qmult Qdiv inject_Z Z.min
         interpolateLayout canvasSize getSupportedMimeType newBlob
         String.append errToString fold_right fold_left
         milestones cleanupCount outcome isCleanup isSettle isDraw isOverlay
         isTimeout blob_size blob_type isBackground isCancel camReady
         getVideoTracks getAudioTracks] in H.

Ltac run_cleanup :=
  match goal with
  | |- context [cleanup ?s] =>
      let s' := fresh "s'" in
      let E := fresh "E" in
      let C := fresh "C" in
      let fx := fresh "fx" in
      let Et := fresh "Et" in
      let Hq := fresh "Hq" in
      destruct (cleanup_spec s) as (s' & E & C); rewrite E; clear E;
      destruct C as [? ? ? ? ? ? ? ? ? ? ? ? ? ? ? ? ? ? ? ? ? ? ? ? ?
                     (fx & Et & Hq)];
      destruct s' as [[? ? ? ? ? ? ?] [? ? ? ? ? ? ? ? ?] [? ? ? ?]
                        [? ? ? ? ? ? ?] ? ?];
      cbn [refs vars comp plat trace console
           isRecording recordingTime error previewUrl isBrowserSupported
           webcamEnabled webcamStream
           mediaRecorder chunks mediaStream timerInterval stopResolve stopReject
           audioContext audioDestination displayStream
           layouts animationFrameId displayVideoEl webcamVideoEl
           videoEls loops rafQueue intervals timeouts endedHandler nextHandle] in *;
      subst
  end.

Lemma cleanup_twice (s : State) :
  let s1 := snd (cleanup s) in
  cleanup s1 = (Ok tt, addEffect ECleanup s1).
Proof.
  destruct s as [[rec tm er pu bs we ws] [mr ch ms ti sr sj ac ad ds]
                   [ly af dv wv] [ve lo rq iv to eh nh] tr co].
  destruct af, dv, wv, ds, ms, ac, ti, ws; exec; reflexivity.
Qed.

Lemma cleanup_nothing_to_release (s : State) :
  animationFrameId (comp s) = None ->
  displayVideoEl (comp s) = None ->
  webcamVideoEl (comp s) = None ->
  displayStream (vars s) = None ->
  mediaStream (vars s) = None ->
  audioContext (vars s) = None ->
  timerInterval (vars s) = None ->
  webcamStream (refs s) = None ->
  cleanup s = (Ok tt, addEffect ECleanup s).
Proof.
  destruct s as [[rec tm er pu bs we ws] [mr ch ms ti sr sj ac ad ds]
                   [ly af dv wv] [ve lo rq iv to eh nh] tr co].
  cbn. intros -> -> -> -> -> -> -> ->. reflexivity.
Qed.

(* ================================================================== *)
(** ** The stop handshake *)

Lemma newBlob_nil (type : string) : newBlob [] type = mkBlob 0 type.
Proof. reflexivity. Qed.

(** C1 (the code departs from the claim).  When the recorder's stop event
    fires with no chunk accumulated while a [stopRecording()] promise is
    pending, [onstop] stores a preview URL for the empty blob and resolves
    the promise with that empty blob; nothing is rejected. *)
Theorem natural_stop_without_chunks_resolves_empty
    (b : Browser) (s : State) (r : Recorder) (p : nat) :
  mediaRecorder (vars s) = Some r ->
  chunks (vars s) = [] ->
  stopResolve (vars s) = Some p ->
  let s' := dispatch b RecorderStopped s in
  let empty := mkBlob 0 (rec_mimeType r) in
  previewUrl (refs s') = Some (BlobUrl empty) /\
  exists fx,
    trace s' = trace s ++ ECleanup :: fx ++ [ESettle p (Resolved empty)] /\
    Forall quietEffect fx.
Proof.
  destruct s as [[rec tm er pu bs we ws] [mr ch ms ti sr sj ac ad ds]
                   [ly af dv wv] [ve lo rq iv to eh nh] tr co].
  cbn [vars refs mediaRecorder chunks stopResolve trace].
  intros -> -> ->.
  unfold dispatch, runCallback.
  destruct ti; exec_to_cleanup; run_cleanup; exec;
    (split; [reflexivity|]);
    exists fx; (split; [|exact Hq]);
    rewrite <- app_assoc; reflexivity.
Qed.

Lemma natural_stop_without_chunks_witness :
  previewUrl (refs (dispatch chrome RecorderStopped stoppingSession))
    = Some (BlobUrl (mkBlob 0 "video/webm;codecs=vp8,opus")) /\
  exists fx,
    trace (dispatch chrome RecorderStopped stoppingSession)
      = trace stoppingSession ++ ECleanup :: fx ++
          [ESettle 2 (Resolved (mkBlob 0 "video/webm;codecs=vp8,opus"))] /\
    Forall quietEffect fx.
Proof.
  apply (natural_stop_without_chunks_resolves_empty chrome stoppingSession
           (mkRecorder Inactive "video/webm;codecs=vp8,opus" false) 2);
    vm_compute; reflexivity.
Defined.

Lemma filter_milestone_quiet (fx : list Effect) :
  Forall quietEffect fx -> filter (fun e => isCleanup e || isSettle e) fx = [].
Proof. apply milestones_quiet. Qed.

Ltac milestones_norm :=
  unfold milestones;
  repeat rewrite filter_app;
  cbn [filter isCleanup isSettle orb];
  repeat match goal with
         | H : Forall quietEffect ?fx |- _ =>
             rewrite (filter_milestone_quiet fx H)
         end;
  cbn [app];
  rewrite ?app_nil_r, <- ?app_assoc; cbn [app].

(** The fallback of [stopRecording] does what the natural stop does not:
    with no chunk it rejects and leaves [previewUrl] alone. *)
Lemma finishStop_without_chunks_rejects (b : Browser) (s : State) (p : nat) :
  chunks (vars s) = [] ->
  stopReject (vars s) = Some p ->
  let s' := runCallback (finishStop b) s in
  previewUrl (refs s') = previewUrl (refs s) /\
  milestones (trace s') =
    milestones (trace s) ++
      [ECleanup; ESettle p (Rejected (newError "No data recorded")); ECleanup].
Proof.
  destruct s as [[rec tm er pu bs we ws] [mr ch ms ti sr sj ac ad ds]
                   [ly af dv wv] [ve lo rq iv to eh nh] tr co].
  cbn [vars refs chunks stopReject trace previewUrl].
  intros -> ->.
  unfold runCallback.
  exec_to_cleanup. rewrite newBlob_nil. cbn [blob_size].
  change (0 <? 0)%N with false. exec_to_cleanup.
  run_cleanup. exec_to_cleanup. run_cleanup. exec.
  split; [reflexivity | milestones_norm; reflexivity].
Qed.




(** When the user ends the screen share, the recorder stops and [onstop]
    seals the recording with no stop promise pending: [cleanup] is not
    called at all, and a later [stopRecording()] is rejected without it. *)
Lemma no_cleanup_when_share_is_revoked :
  let s := run chrome
             [CallStartRecording envScreenOnly;
              DataAvailable (Some (mkBlob 1000 "video/webm"));
              TrackEnded screenTrack;
              RecorderStopped;
              CallStopRecording None]
             (initialState chrome) in
  milestones (trace s) =
    [ESettle 2 (Rejected (newError "Recording already stopped"))] /\
  isRecording (refs s) = false /\
  displayStream (vars s) = Some [screenTrack].
Proof.
  repeat split; vm_compute; reflexivity.
Qed.



(* ================================================================== *)
(** ** Cancelling the compositing loop *)

(** [cleanup] cancels the one handle kept in [animationFrameId]: any other
    pending callback is still pending when it returns. *)
Lemma cleanup_cancels_one_handle (s : State) (h loop : nat) :
  In (h, loop) (rafQueue (plat s)) ->
  animationFrameId (comp s) <> Some h ->
  In (h, loop) (rafQueue (plat (snd (cleanup s)))).
Proof.
  intros Hin Hne. destruct (cleanup_spec s) as (s' & E & C). rewrite E. cbn [snd].
  rewrite (cl_rafQueue s s' C).
  destruct (animationFrameId (comp s)) as [h'|]; [|exact Hin].
  apply filter_In. split; [exact Hin|]. cbn [fst].
  destruct (Nat.eqb_spec h h') as [->|_]; [now elim Hne | reflexivity].
Qed.

(** C4 (the code departs from the claim).  [compositeFrame] requests an
    animation frame twice on every drawn frame and keeps only the second
    handle, and the first request of [startCompositingLoop] is never kept.
    So after [cleanup] has cancelled the one handle it knows (or none), a
    callback is still pending and the loop goes on drawing:
    - after one drawn frame, a stop and the stop event, [cleanup] has run
      once and reset [animationFrameId], yet a callback is pending and the
      next due frame draws the background again;
    - when [startRecording] fails right after starting the loop, its
      [cleanup] cancels nothing and the loop draws from then on. *)
Theorem cleanup_leaves_compositing_loop_running :
  (let s := run chrome [CallStopRecording None; RecorderStopped] compositedSession in
   cleanupCount (trace s) = 1%nat /\
   animationFrameId (comp s) = None /\
   rafQueue (plat s) <> [] /\
   filter isDraw (trace (run chrome [AnimationFrame 100] s))
     = filter isDraw (trace s) ++ [EDrawBackground 0]) /\
  (let s := run chrome [CallStartRecording envNoCanvasTrack] (initialState chrome) in
   cleanupCount (trace s) = 1%nat /\
   filter isCancel (trace s) = [] /\
   rafQueue (plat s) <> [] /\
   filter isDraw (trace (run chrome [AnimationFrame 50; AnimationFrame 100] s))
     = [EDrawBackground 0; EDrawBackground 0]).
Proof.
  split; cbv zeta.
  - split; [vm_compute; reflexivity|].
    split; [vm_compute; reflexivity|].
    split; [vm_compute; discriminate|].
    vm_compute; reflexivity.
  - split; [vm_compute; reflexivity|].
    split; [vm_compute; reflexivity|].
    split; [vm_compute; discriminate|].
    vm_compute; reflexivity.
Qed.

(* ================================================================== *)
(** ** Toggling the webcam *)

Lemma toggleWebcam_held (cam : PlatformFailure + MediaStream) (s : State) (st : MediaStream) :
  webcamStream (refs s) = Some st ->
  toggleWebcam cam s =
    (Ok tt,
     updRefs (fun r => set_webcamEnabled false (set_webcamStream None r))
             (addEffects (map ETrackStop st) s)).
Proof.
  destruct s as [[rec tm er pu bs we ws] vs cs ps tr co].
  cbn [refs webcamStream]. intros ->. reflexivity.
Qed.

Lemma toggleWebcam_not_held (cam : PlatformFailure + MediaStream) (s : State) :
  webcamStream (refs s) = None ->
  toggleWebcam cam s =
    match cam with
    | inr stream =>
        (Ok tt,
         updRefs (fun r => set_webcamStream (Some stream) (set_webcamEnabled true r)) s)
    | inl _ =>
        (Ok tt,
         updRefs (set_webcamEnabled false)
                 (addLog LogWarn "Could not access webcam:" s))
    end.
Proof.
  destruct s as [[rec tm er pu bs we ws] vs cs ps tr co].
  cbn [refs webcamStream]. intros ->. destruct cam; reflexivity.
Qed.







(* ================================================================== *)
(** ** Starting a session *)

Lemma filter_head {A} (f : A -> bool) (l : list A) (x : A) (rest : list A) :
  filter f l = x :: rest -> f x = true.
Proof.
  intro H. assert (Hin : In x (filter f l)) by (rewrite H; now left).
  apply filter_In in Hin. exact (proj2 Hin).
Qed.

(** Run a call symbolically in the hypothesis [E : res = call]: unfold up
    to the next undecided test, decide it both ways, and go on. *)
Ltac crank_step E :=
  exec_to_cleanup_in E;
  match type of E with
  | context [match ?x with _ => _ end] => is_var x; destruct x
  | context [getVideoTracks ?l] =>
      let Ev := fresh "Evideo" in destruct (getVideoTracks l) eqn:Ev
  | context [Nat.eqb (List.length (getAudioTracks ?l)) 0] =>
      let Ea := fresh "Eaudio" in
      destruct (Nat.eqb (List.length (getAudioTracks l)) 0) eqn:Ea
  | context [getSupportedMimeType ?b] =>
      let Em := fresh "Emime" in destruct (getSupportedMimeType b) eqn:Em
  end.

(** A branch that ended in a [throw] or in the [catch] of
    [startRecording] does not return normally. *)
Ltac failed_start E :=
  let H := fresh in
  match type of E with
  | _ = (Throw _, _) => subst; intro H; discriminate H
  | context [cleanup ?x] =>
      destruct (cleanup x) as [[ | ] ?]; exec_in E; subst; intro H; discriminate H
  end.

Ltac crank E :=
  repeat (crank_step E; try failed_start E); exec_to_cleanup_in E; try failed_start E.

Lemma raw_track_stream (display : MediaStream) (t : Track) (rest audio : list Track) :
  getVideoTracks display = t :: rest ->
  (forall a, In a audio -> isVideo a = false) ->
  getVideoTracks (t :: audio) = [t] /\ getAudioTracks (t :: audio) = audio.
Proof.
  intros Hd Ha. pose proof (filter_head _ _ _ _ Hd) as Hv.
  unfold getVideoTracks, getAudioTracks, isAudio. cbn [filter]. rewrite Hv. cbn [negb].
  split.
  - f_equal. induction audio as [|a audio IH]; [reflexivity|].
    cbn [filter]. rewrite (Ha a) by now left. apply IH. intros; apply Ha; now right.
  - induction audio as [|a audio IH]; [reflexivity|].
    cbn [filter]. rewrite (Ha a) by now left. cbn [negb]. f_equal.
    apply IH. intros; apply Ha; now right.
Qed.

Ltac raw_track_leaf res :=
  subst res;
  cbn [fst snd dc_stream vars plat comp refs mediaStream audioContext loops
       rafQueue videoEls displayVideoEl animationFrameId webcamStream];
  intros _;
  cbn [getAudioTracks filter isAudio isVideo trackKind negb];
  match goal with
  | Ev : getVideoTracks _ = _ :: _, Ea : Nat.eqb _ 0 = _ |- _ =>
      rewrite Ev, Ea; cbn [hd_error negb orb];
      do 2 eexists; split; [reflexivity|]; split; [reflexivity|];
      match goal with
      | |- getVideoTracks (_ :: ?audio) = _ /\ _ =>
          let Hv := fresh "Hv" in
          let Ha := fresh "Ha" in
          let a := fresh "a" in
          let Hin := fresh "Hin" in
          destruct (raw_track_stream _ _ _ audio Ev) as [Hv Ha];
            [ intros a Hin; cbn [In] in Hin; intuition (subst; reflexivity) |];
          rewrite Hv, Ha
      end;
      split; [reflexivity|];
      split; [first [reflexivity | eexists; split; reflexivity]|];
      repeat split
  end.

(** C7.  When no webcam stream is held and none is acquired (the webcam is
    disabled, or its acquisition fails), a [startRecording()] that
    succeeds hands the recorder a stream whose only video track is the
    first video track of the display stream itself, with the audio
    destination's one track after it exactly when there is tab audio or a
    microphone; no compositing loop, pending frame or hidden video element
    is created. *)
Theorem no_webcam_records_raw_display_track (b : Browser) (env : StartEnv) (s : State) :
  webcamStream (refs s) = None ->
  (webcamEnabled (refs s) = false \/ exists f, env_webcam env = inl f) ->
  fst (startRecording b env s) = Ok tt ->
  let s' := snd (startRecording b env s) in
  exists track stream,
    displayVideoTrack env = Some track /\
    mediaStream (vars s') = Some stream /\
    getVideoTracks stream = [track] /\
    (if hasAudioSource env
     then exists ctx, getAudioTracks stream = [MixedTrack ctx] /\
                      audioContext (vars s') = Some ctx
     else getAudioTracks stream = []) /\
    loops (plat s') = loops (plat s) /\
    rafQueue (plat s') = rafQueue (plat s) /\
    videoEls (plat s') = videoEls (plat s) /\
    displayVideoEl (comp s') = displayVideoEl (comp s) /\
    animationFrameId (comp s') = animationFrameId (comp s) /\
    webcamStream (refs s') = None.
Proof.
  destruct s as [[rec tm er pu bs we ws] [mr ch ms ti sr sj ac ad ds]
                   [ly af dv wv] [ve lo rq iv to eh nh] tr co].
  destruct env as [disp mic cam pd pw ct rd re rs].
  cbn [refs webcamStream webcamEnabled env_webcam].
  intros -> Hcam.
  assert (Hc : we = false \/ exists f, cam = inl f) by exact Hcam. clear Hcam.
  unfold displayVideoTrack, hasAudioSource.
  cbn [env_display env_mic vars plat comp refs loops rafQueue videoEls displayVideoEl
       animationFrameId].
  match goal with |- context [startRecording ?b ?e ?s] =>
    remember (startRecording b e s) as res eqn:Eres end.
  cbv zeta.
  destruct Hc as [-> | [f ->]]; crank Eres; raw_track_leaf res.
Qed.

Lemma no_webcam_records_raw_display_track_witness :
  webcamStream (refs (initialState chrome)) = None /\
  exists track stream,
    displayVideoTrack envScreenOnly = Some track /\
    mediaStream (vars (snd (startRecording chrome envScreenOnly (initialState chrome))))
      = Some stream /\
    getVideoTracks stream = [track].
Proof.
  assert (H1 : webcamStream (refs (initialState chrome)) = None) by reflexivity.
  assert (H2 : webcamEnabled (refs (initialState chrome)) = false \/
               exists f, env_webcam envScreenOnly = inl f)
    by (right; exists denied; reflexivity).
  assert (H3 : fst (startRecording chrome envScreenOnly (initialState chrome)) = Ok tt)
    by (vm_compute; reflexivity).
  split; [exact H1|].
  destruct (no_webcam_records_raw_display_track chrome envScreenOnly
              (initialState chrome) H1 H2 H3)
    as (track & stream & Hd & Hm & Hv & _).
  exists track, stream. repeat split; assumption.
Defined.

(** *** Which errors a statement can throw *)

Section ThrowsOnly.

Context {A B : Type} (P : Err -> Prop).

Lemma throwsOnly_ret (a : A) : throwsOnly P (ret a).
Proof. intros s e H; discriminate H. Qed.


Lemma throwsOnly_modify (f : State -> State) : throwsOnly P (modify f).
Proof. intros s e H; discriminate H. Qed.

Lemma throwsOnly_gets (f : State -> A) : throwsOnly P (gets f).
Proof. intros s e H; discriminate H. Qed.

Lemma throwsOnly_bind (m : M A) (f : A -> M B) :
  throwsOnly P m -> (forall a, throwsOnly P (f a)) -> throwsOnly P (bind m f).
Proof.
  intros Hm Hf s e. unfold bind.
  destruct (m s) as [[a|e'] s'] eqn:E.
  - apply Hf.
  - cbn. intro H; injection H as <-. apply (Hm s). now rewrite E.
Qed.

Lemma throwsOnly_tryCatch (Q : Err -> Prop) (body : M A) (handler : Err -> M A) :
  throwsOnly Q body ->
  (forall e, Q e -> throwsOnly P (handler e)) ->
  throwsOnly P (tryCatch body handler).
Proof.
  intros Hb Hh s e. unfold tryCatch.
  destruct (body s) as [[a|e'] s'] eqn:E.
  - intro H; discriminate H.
  - apply Hh. apply (Hb s). now rewrite E.
Qed.

End ThrowsOnly.

Lemma throwsOnly_cleanup (P : Err -> Prop) : throwsOnly P cleanup.
Proof.
  intros s e. destruct (cleanup_spec s) as (s' & E & _). rewrite E.
  intro H; discriminate H.
Qed.

(** Unfold the named statements down to [bind], [ret], [throw], [gets],
    [modify] and [tryCatch]. *)
Ltac unfold_statements :=
  unfold initWebcam, stopWebcam, toggleWebcam, stopTracks,
    requestAnimationFrame, cancelAnimationFrame, startCompositingLoop,
    startTimer, stopTimer, timerTick, pauseAndDetach,
    createVideo, bindAndPlay, setOnended, newRecorder, setRecorderState,
    recorderStop, setTimeout, awaitPlatform, callPlatform, fresh, when,
    getRef, getVar, getComp, getPlat, setRef, setVar, setComp, setPlat,
    effect, effects, log, warn, logError;
  cbv zeta.

Ltac throws_step :=
  first
    [ apply throwsOnly_ret
    | apply throwsOnly_modify
    | apply throwsOnly_gets
    | apply throwsOnly_cleanup
    | apply throwsOnly_bind; [|intro]
    | apply throwsOnly_tryCatch with (Q := fun _ => True);
        [intros ? ? _; exact I | intros ? _]
    | match goal with
      | |- throwsOnly _ (match ?x with _ => _ end) => destruct x
      end ].


Lemma toggleWebcam_never_throws (cam : PlatformFailure + MediaStream) :
  throwsOnly (fun _ => False) (toggleWebcam cam).
Proof.
  unfold_statements. repeat throws_step.
Qed.





(* ================================================================== *)
(** ** Content types *)

Section Keeps.

Context {A B : Type}.

Lemma keeps_ret (a : A) : keeps (ret a).
Proof. intros s H; exact H. Qed.

Lemma keeps_throw (e : Err) : keeps (@throw A e).
Proof. intros s H; exact H. Qed.

Lemma keeps_bind (m : M A) (f : A -> M B) :
  keeps m -> (forall a, keeps (f a)) -> keeps (bind m f).
Proof.
  intros Hm Hf s Hs. unfold bind. specialize (Hm s Hs).
  destruct (m s) as [[a|e] s']; [apply Hf|]; exact Hm.
Qed.

Lemma keeps_gets_bind (g : State -> A) (f : A -> M B) :
  (forall s0, ContentTypesOk s0 -> keeps (f (g s0))) -> keeps (bind (gets g) f).
Proof. intros H s Hs. exact (H s Hs s Hs). Qed.

Lemma keeps_tryCatch (body : M A) (handler : Err -> M A) :
  keeps body -> (forall e, keeps (handler e)) -> keeps (tryCatch body handler).
Proof.
  intros Hb Hh s Hs. unfold tryCatch. specialize (Hb s Hs).
  destruct (body s) as [[a|e] s']; [|apply Hh]; exact Hb.
Qed.

End Keeps.

Lemma keeps_updRefs (f : Refs -> Refs) :
  (forall r, previewUrl (f r) = previewUrl r) -> keeps (modify (updRefs f)).
Proof.
  intros Hf s [Hr Ht Hp]. constructor; cbn; [exact Hr | exact Ht |].
  intro bl. rewrite Hf. apply Hp.
Qed.

Lemma keeps_previewUrl (bl : Blob) :
  In (blob_type bl) mimeTypes ->
  keeps (modify (updRefs (set_previewUrl (Some (BlobUrl bl))))).
Proof.
  intros Hb s [Hr Ht Hp]. constructor; cbn; [exact Hr | exact Ht |].
  intros bl' E. injection E as <-. exact Hb.
Qed.

Lemma keeps_updVars (f : Vars -> Vars) :
  (forall x, mediaRecorder (f x) = mediaRecorder x) -> keeps (modify (updVars f)).
Proof.
  intros Hf s [Hr Ht Hp]. constructor; cbn; [|exact Ht | exact Hp].
  intro r. rewrite Hf. apply Hr.
Qed.


Lemma keeps_recorderState (st : RecorderState) :
  keeps (modify (updVars (fun x =>
    set_mediaRecorder
      (option_map (fun r => mkRecorder st (rec_mimeType r) (rec_explicit r))
                  (mediaRecorder x)) x))).
Proof.
  intros s [Hr Ht Hp]. constructor; cbn; [|exact Ht | exact Hp].
  intros r'. destruct (mediaRecorder (vars s)) as [r|]; cbn; [|discriminate].
  intro E. injection E as <-. cbn. now apply Hr.
Qed.

Lemma keeps_updComp (f : Comp -> Comp) : keeps (modify (updComp f)).
Proof. intros s [Hr Ht Hp]. constructor; cbn; assumption. Qed.

Lemma keeps_updPlat (f : Plat -> Plat) : keeps (modify (updPlat f)).
Proof. intros s [Hr Ht Hp]. constructor; cbn; assumption. Qed.

Lemma keeps_addLog (l : LogLevel) (msg : string) : keeps (modify (addLog l msg)).
Proof. intros s [Hr Ht Hp]. constructor; cbn; assumption. Qed.

Lemma keeps_addEffects (es : list Effect) :
  (forall p bl, In (ESettle p (Resolved bl)) es -> In (blob_type bl) mimeTypes) ->
  keeps (modify (addEffects es)).
Proof.
  intros He s [Hr Ht Hp]. constructor; cbn; [exact Hr | | exact Hp].
  intros p bl Hin. apply in_app_or in Hin. destruct Hin; [eapply Ht | eapply He]; eassumption.
Qed.

Lemma keeps_addEffect (e : Effect) :
  (forall p bl, e = ESettle p (Resolved bl) -> In (blob_type bl) mimeTypes) ->
  keeps (modify (addEffect e)).
Proof.
  intros He. apply (keeps_addEffects [e]).
  intros p bl [E | []]. now apply (He p bl).
Qed.

Lemma keeps_stops (l : list Track) : keeps (modify (addEffects (map ETrackStop l))).
Proof.
  apply keeps_addEffects. intros p bl Hin.
  apply in_map_iff in Hin. destruct Hin as (t & E & _). discriminate E.
Qed.


Ltac keeps_step :=
  first
    [ apply keeps_ret
    | apply keeps_throw
    | apply keeps_updComp
    | apply keeps_updPlat
    | apply keeps_addLog
    | apply keeps_stops
    | apply keeps_recorderState
    | apply keeps_updRefs; intro; reflexivity
    | apply keeps_updVars; intro; reflexivity
    | apply keeps_addEffect; intros ? ? ?; discriminate
    | apply keeps_gets_bind; intros ? ?
    | apply keeps_bind; [|intro]
    | apply keeps_tryCatch; [|intro]
    | match goal with
      | |- keeps (match ?x with _ => _ end) => destruct x eqn:?
      end ].

Lemma keeps_cleanup : keeps cleanup.
Proof. unfold cleanup. unfold_statements. repeat keeps_step. Qed.

Ltac keeps_auto := unfold_statements; repeat first [apply keeps_cleanup | keeps_step].


Lemma keeps_stopWebcam : keeps stopWebcam.
Proof. keeps_auto. Qed.







(** What is left after [keeps_auto]: storing a preview URL and resolving
    a promise, each with a blob of type [t]. *)
Ltac sealed_with H :=
  first
    [ apply keeps_previewUrl; exact H
    | unfold effect; apply keeps_addEffect;
      let E := fresh in intros ? ? E; injection E as _ <-; exact H ].

Lemma keeps_callStopResolve (bl : Blob) :
  In (blob_type bl) mimeTypes -> keeps (callStopResolve bl).
Proof.
  intro Hb. unfold callStopResolve. keeps_auto. sealed_with Hb.
Qed.

Lemma keeps_callStopReject (e : Err) : keeps (callStopReject e).
Proof. unfold callStopReject. keeps_auto. Qed.











(** *** Statements that cannot return normally *)






(* ================================================================== *)
(** * Further properties of the code *)

(* ================================================================== *)
(** ** Elapsed-time display *)

Lemma splitColon_nonempty (s : string) : splitColon s <> [].
Proof.
  induction s as [|c s IH]; cbn [splitColon]; [discriminate|].
  destruct (Ascii.eqb c ":"%char); [discriminate|].
  destruct (splitColon s); discriminate.
Qed.

Lemma splitColon_field (a rest : string) :
  noColon a -> splitColon (String.append a (String ":"%char rest)) = a :: splitColon rest.
Proof.
  unfold noColon. revert rest. induction a as [|c a IH]; intros rest Ha.
  - reflexivity.
  - cbn [String.append splitColon] in *.
    destruct (Ascii.eqb c ":"%char); [discriminate Ha|].
    destruct (splitColon a) as [|f fs] eqn:Ea; [now elim (splitColon_nonempty a)|].
    injection Ha as -> ->. now rewrite IH.
Qed.

Lemma noColon_uint (d : Decimal.uint) : noColon (DecimalString.NilEmpty.string_of_uint d).
Proof.
  unfold noColon. induction d; cbn [DecimalString.NilEmpty.string_of_uint splitColon];
    [reflexivity | ..]; cbn [Ascii.eqb Bool.eqb andb]; rewrite IHd; reflexivity.
Qed.

Lemma noColon_toString (n : nat) : noColon (toString n).
Proof. apply noColon_uint. Qed.

Lemma noColon_padStart2 (s : string) : noColon s -> noColon (padStart2 s).
Proof.
  intro Hs. unfold padStart2.
  destruct (String.length s) as [|[|k]]; [reflexivity | | exact Hs].
  unfold noColon in *. cbn [splitColon Ascii.eqb Bool.eqb andb]. now rewrite Hs.
Qed.

Lemma to_uint_not_Nil (n : nat) : Nat.to_uint n <> Decimal.Nil.
Proof.
  pose proof (DecimalNat.Unsigned.to_of (Nat.to_uint n)) as H.
  rewrite DecimalNat.Unsigned.of_to in H. rewrite H.
  unfold Decimal.unorm. destruct (Decimal.nzhead (Nat.to_uint n)); discriminate.
Qed.

Lemma toString_nonempty (n : nat) : toString n <> EmptyString.
Proof.
  unfold toString. pose proof (to_uint_not_Nil n) as H.
  destruct (Nat.to_uint n); [congruence | ..]; discriminate.
Qed.

Lemma parseNat_toString (n : nat) : parseNat (toString n) = Some n.
Proof.
  unfold parseNat. pose proof (toString_nonempty n) as H.
  destruct (toString n) eqn:E; [congruence|]. rewrite <- E. unfold toString.
  rewrite DecimalString.NilEmpty.usu. cbn [option_map].
  now rewrite DecimalNat.Unsigned.of_to.
Qed.

Lemma parseNat_padStart2 (n : nat) : parseNat (padStart2 (toString n)) = Some n.
Proof.
  pose proof (parseNat_toString n) as H. unfold padStart2.
  destruct (String.length (toString n)) as [|[|k]] eqn:El; [ | | exact H].
  - destruct (toString n); [discriminate H | discriminate El].
  - unfold parseNat in *. destruct (toString n) eqn:E; [discriminate H|].
    rewrite <- E in *. unfold toString in *.
    cbn [DecimalString.NilEmpty.uint_of_string].
    rewrite DecimalString.NilEmpty.usu in *. cbn in *. exact H.
Qed.

Lemma clock_fields (n : nat) :
  (n = n / 3600 * 3600 + n mod 3600 / 60 * 60 + n mod 60)%nat.
Proof.
  pose proof (Nat.div_mod_eq n 3600) as H1.
  pose proof (Nat.div_mod_eq (n mod 3600) 60) as H2.
  assert (H3 : ((n mod 3600) mod 60 = n mod 60)%nat).
  { change 3600%nat with (60 * 60)%nat.
    rewrite Nat.Div0.mod_mul_r, (Nat.mul_comm 60).
    rewrite Nat.Div0.mod_add. apply Nat.Div0.mod_mod. }
  lia.
Qed.

(** X1. A displayed time reads back as the number of seconds it was
    made from: [formatTime] loses nothing, for every count of seconds. *)
Theorem formatTime_round_trip (seconds : nat) :
  parseTime (formatTime seconds) = Some seconds.
Proof.
  unfold formatTime, parseTime. cbv zeta.
  destruct (0 <? seconds / 3600)%nat eqn:Eh.
  - rewrite splitColon_field by apply noColon_toString.
    rewrite splitColon_field by (apply noColon_padStart2, noColon_toString).
    rewrite (noColon_padStart2 _ (noColon_toString _)).
    cbn [map]. rewrite parseNat_toString, !parseNat_padStart2.
    f_equal. symmetry. apply clock_fields.
  - rewrite splitColon_field by apply noColon_toString.
    rewrite (noColon_padStart2 _ (noColon_toString _)).
    cbn [map]. rewrite parseNat_toString, !parseNat_padStart2.
    f_equal. apply Nat.ltb_ge in Eh.
    pose proof (clock_fields seconds) as H.
    assert (seconds / 3600 = 0)%nat by lia. lia.
Qed.

Lemma padStart2_two_digits (k : nat) :
  (k < 60)%nat -> String.length (padStart2 (toString k)) = 2%nat.
Proof.
  intro H. do 60 (destruct k as [|k]; [reflexivity|]). lia.
Qed.

(** X2. The shape of the display: the hours field appears exactly from
    one hour on, and every field after the first has exactly two
    characters. *)
Theorem formatTime_fields (seconds : nat) :
  List.length (splitColon (formatTime seconds))
    = (if (seconds <? 3600)%nat then 2%nat else 3%nat) /\
  (forall f, In f (tl (splitColon (formatTime seconds))) ->
     String.length f = 2%nat).
Proof.
  assert (Hm : (seconds mod 3600 / 60 < 60)%nat).
  { apply Nat.Div0.div_lt_upper_bound. apply Nat.mod_upper_bound. discriminate. }
  assert (Hs : (seconds mod 60 < 60)%nat) by (apply Nat.mod_upper_bound; discriminate).
  assert (Hh : (0 <? seconds / 3600)%nat = negb (seconds <? 3600)%nat).
  { destruct (seconds <? 3600)%nat eqn:E.
    - apply Nat.ltb_lt in E. rewrite Nat.div_small by exact E. reflexivity.
    - apply Nat.ltb_ge in E. apply Nat.ltb_lt.
      apply Nat.div_str_pos. lia. }
  unfold formatTime. cbv zeta. rewrite Hh.
  destruct (seconds <? 3600)%nat; cbn [negb].
  - rewrite splitColon_field by apply noColon_toString.
    rewrite (noColon_padStart2 _ (noColon_toString _)).
    split; [reflexivity|]. cbn [tl In].
    intros f [<- | []]. now apply padStart2_two_digits.
  - rewrite splitColon_field by apply noColon_toString.
    rewrite splitColon_field by (apply noColon_padStart2, noColon_toString).
    rewrite (noColon_padStart2 _ (noColon_toString _)).
    split; [reflexivity|]. cbn [tl In].
    intros f [<- | [<- | []]]; now apply padStart2_two_digits.
Qed.

(* ================================================================== *)
(** ** Properties kept by every statement *)

Section Preserves.

Context {A B : Type} (I : State -> Prop).

Lemma preserves_ret (a : A) : preserves I (ret a).
Proof. intros s H; exact H. Qed.

Lemma preserves_throw (e : Err) : preserves I (@throw A e).
Proof. intros s H; exact H. Qed.

Lemma preserves_gets (g : State -> A) : preserves I (gets g).
Proof. intros s H; exact H. Qed.

Lemma preserves_modify (f : State -> State) :
  (forall s, I s -> I (f s)) -> preserves I (modify f).
Proof. intros Hf s H. now apply Hf. Qed.

Lemma preserves_bind (m : M A) (f : A -> M B) :
  preserves I m -> (forall a, preserves I (f a)) -> preserves I (bind m f).
Proof.
  intros Hm Hf s Hs. unfold bind. specialize (Hm s Hs).
  destruct (m s) as [[a|e] s']; [apply Hf|]; exact Hm.
Qed.

Lemma preserves_gets_bind (g : State -> A) (f : A -> M B) :
  (forall s0, I s0 -> preserves I (f (g s0))) -> preserves I (bind (gets g) f).
Proof. intros H s Hs. exact (H s Hs s Hs). Qed.

Lemma preserves_tryCatch (body : M A) (handler : Err -> M A) :
  preserves I body -> (forall e, preserves I (handler e)) ->
  preserves I (tryCatch body handler).
Proof.
  intros Hb Hh s Hs. unfold tryCatch. specialize (Hb s Hs).
  destruct (body s) as [[a|e] s']; [|apply Hh]; exact Hb.
Qed.

End Preserves.

Lemma preserves_runCallback (I : State -> Prop) (m : M unit) (s : State) :
  preserves I m ->
  (forall e s', I s' -> I (addEffect (EUncaught e) s')) ->
  I s -> I (runCallback m s).
Proof.
  intros Hm Hu Hs. unfold runCallback. specialize (Hm s Hs).
  destruct (m s) as [[a|e] s']; [exact Hm | now apply Hu].
Qed.

Lemma preserves_animationFrame (I : State -> Prop) (timestamp : Q) (s : State) :
  (forall loop, preserves I (compositeFrame loop timestamp)) ->
  (forall s', I s' -> I (updPlat (set_rafQueue []) s')) ->
  (forall e s', I s' -> I (addEffect (EUncaught e) s')) ->
  I s -> I (animationFrame timestamp s).
Proof.
  intros Hc Hq Hu Hs. unfold animationFrame.
  specialize (Hq s Hs). revert Hq. generalize (updPlat (set_rafQueue []) s).
  induction (rafQueue (plat s)) as [|cb pending IH]; intros st Hst; cbn [fold_left];
    [exact Hst|].
  apply IH. now apply preserves_runCallback.
Qed.

(** A property kept by every statement of the composable is kept by
    every event; [P] says which platform answers the [startRecording()]
    calls may get, [PL] which layouts are requested. *)
Lemma preserves_dispatch_when (I : State -> Prop) (P : StartEnv -> Prop)
    (PL : Layout -> Prop) (b : Browser) :
  (forall env, P env -> preserves I (startRecording b env)) ->
  (forall f, preserves I (stopRecording f)) ->
  (forall cam, preserves I (toggleWebcam cam)) ->
  (forall cam, preserves I (initWebcam cam)) ->
  (forall l s, PL l -> I s ->
     I (updComp (fun c => set_layouts (setWebcamLayout l (layouts c)) c) s)) ->
  (forall loop t, preserves I (compositeFrame loop t)) ->
  (forall s, I s -> I (updPlat (set_rafQueue []) s)) ->
  (forall d, preserves I (ondataavailable d)) ->
  preserves I onstop ->
  preserves I onerror ->
  preserves I onended ->
  (forall cb f s, I s -> existsb (isTimeout cb) (timeouts (plat s)) = true ->
     I (dispatch b (TimeoutFires cb f) s)) ->
  (forall h, preserves I (timerTick h)) ->
  preserves I unmounted ->
  (forall e s, I s -> I (addEffect (EUncaught e) s)) ->
  forall ev s,
    (forall env, ev = CallStartRecording env -> P env) ->
    (forall l, ev = CallSetWebcamLayout l -> PL l) ->
    I s -> I (dispatch b ev s).
Proof.
  intros Hstart Hstop Htoggle Hinit Hlayout Hframe Hqueue Hdata Honstop Honerror
         Honended Htimeout Htick Hunmount Hu ev s Hev Hevl Hs.
  destruct ev; cbn [dispatch].
  - apply Hstart; [now apply Hev | exact Hs].
  - now apply Hstop.
  - now apply Htoggle.
  - now apply Hinit.
  - apply Hlayout; [now apply Hevl | exact Hs].
  - now apply preserves_animationFrame.
  - now apply preserves_runCallback.
  - now apply preserves_runCallback.
  - now apply preserves_runCallback.
  - destruct (existsb _ _); [|exact Hs]. now apply preserves_runCallback.
  - destruct (existsb (isTimeout cb) (timeouts (plat s))) eqn:E; [|exact Hs].
    specialize (Htimeout cb requestDataFails s Hs E).
    cbn [dispatch] in Htimeout. now rewrite E in Htimeout.
  - now apply preserves_runCallback.
  - now apply preserves_runCallback.
Qed.

Lemma preserves_dispatch (I : State -> Prop) (b : Browser) :
  (forall env, preserves I (startRecording b env)) ->
  (forall f, preserves I (stopRecording f)) ->
  (forall cam, preserves I (toggleWebcam cam)) ->
  (forall cam, preserves I (initWebcam cam)) ->
  (forall l s, I s -> I (updComp (fun c => set_layouts (setWebcamLayout l (layouts c)) c) s)) ->
  (forall loop t, preserves I (compositeFrame loop t)) ->
  (forall s, I s -> I (updPlat (set_rafQueue []) s)) ->
  (forall d, preserves I (ondataavailable d)) ->
  preserves I onstop ->
  preserves I onerror ->
  preserves I onended ->
  (forall cb f s, I s -> existsb (isTimeout cb) (timeouts (plat s)) = true ->
     I (dispatch b (TimeoutFires cb f) s)) ->
  (forall h, preserves I (timerTick h)) ->
  preserves I unmounted ->
  (forall e s, I s -> I (addEffect (EUncaught e) s)) ->
  forall ev s, I s -> I (dispatch b ev s).
Proof.
  intros Hstart Hstop Htoggle Hinit Hlayout Hframe Hqueue Hdata Honstop Honerror
         Honended Htimeout Htick Hunmount Hu ev s Hs.
  apply (preserves_dispatch_when I (fun _ => True) (fun _ => True)); auto.
Qed.

Lemma preserves_timeout (I : State -> Prop) (b : Browser) :
  (forall cb s, I s -> I (updPlat (fun p => set_timeouts (removeFirst cb (timeouts p)) p) s)) ->
  (forall f, preserves I (safetyTimeout b f)) ->
  preserves I (finishStop b) ->
  (forall e s, I s -> I (addEffect (EUncaught e) s)) ->
  forall cb f s, I s -> existsb (isTimeout cb) (timeouts (plat s)) = true ->
    I (dispatch b (TimeoutFires cb f) s).
Proof.
  intros Hrm Hsafety Hfinish Hu cb f s Hs E. cbn [dispatch]. rewrite E.
  destruct cb; apply preserves_runCallback; auto.
Qed.

Lemma preserves_run (I : State -> Prop) (b : Browser) :
  (forall ev s, I s -> I (dispatch b ev s)) ->
  forall evs s, I s -> I (run b evs s).
Proof.
  intros Hd evs. induction evs as [|ev evs IH]; intros s Hs; [exact Hs|].
  unfold run in *. cbn [fold_left]. apply IH. now apply Hd.
Qed.

Lemma preserves_run_if (I : State -> Prop) (allowed : Event -> Prop) (b : Browser) :
  (forall ev s, allowed ev -> I s -> I (dispatch b ev s)) ->
  forall evs s, Forall allowed evs -> I s -> I (run b evs s).
Proof.
  intros Hd evs. induction evs as [|ev evs IH]; intros s Ha Hs; [exact Hs|].
  inversion Ha as [|? ? Hev Hevs]; subst.
  unfold run in *. cbn [fold_left]. apply IH; [exact Hevs|]. now apply Hd.
Qed.

Lemma preserves_run_when (I : State -> Prop) (allowed : Event -> bool) (b : Browser) :
  (forall ev s, allowed ev = true -> I s -> I (dispatch b ev s)) ->
  forall evs s, forallb allowed evs = true -> I s -> I (run b evs s).
Proof.
  intros Hd evs. induction evs as [|ev evs IH]; intros s Ha Hs; [exact Hs|].
  cbn [forallb] in Ha. apply andb_prop in Ha. destruct Ha as [Hev Hevs].
  unfold run in *. cbn [fold_left]. apply IH; [exact Hevs|]. now apply Hd.
Qed.

(** Unfold every statement of the composable except [startRecording]
    down to the primitives of the monad. *)
Ltac unfold_all :=
  unfold unmounted, safetyTimeout, finishStop, stopRecording, onerror, onstop,
    onended, ondataavailable, callStopResolve, callStopReject, compositeFrame,
    cleanup, toggleWebcam;
  unfold_statements.

Ltac open_state s :=
  destruct s as [[rec tm er pu bs we ws] [mr ch ms ti sr sj ac ad ds]
                   [ly af dv wv] [ve lo rq iv to eh nh] tr co].

(** One step of a proof that a statement keeps a property: [solver]
    settles an update of the state, [prune] closes the branches the
    property excludes. *)
Ltac preserves_step solver prune :=
  first
    [ apply preserves_ret
    | apply preserves_throw
    | apply preserves_gets
    | apply preserves_modify; solve [solver]
    | apply preserves_gets_bind; intros ? ?
    | apply preserves_bind; [|intro]
    | apply preserves_tryCatch; [|intro]
    | match goal with
      | |- preserves _ (match ?x with _ => _ end) => destruct x eqn:?; try solve [prune]
      end
    | progress unfold_all ].

Ltac preserves_auto solver prune :=
  unfold_all; repeat preserves_step solver prune.

(** The cases of [preserves_dispatch]: statements, and updates of the
    state made by the platform. *)
Ltac invariant_case solver prune :=
  intros;
  match goal with
  | |- preserves _ _ => unfold startRecording; preserves_auto solver prune
  | H : ?I ?s |- ?I _ => revert s H; solver
  end.

(* ------------------------------------------------------------------ *)
(** ** An unsupported browser *)

Ltac unsupported_update :=
  idtac;
  let s := fresh "s" in
  let H := fresh "H" in
  intros s H; open_state s; destruct H; constructor; cbn in *;
  try assumption; try congruence;
  rewrite ?in_app_iff; cbn [In];
  intuition (try discriminate; try congruence);
  match goal with
  | H : In ERecorderStart (map ETrackStop ?l) |- _ =>
      apply in_map_iff in H; destruct H as (? & ? & _); discriminate
  end.

Ltac unsupported_prune :=
  idtac; exfalso;
  repeat match goal with
         | H : Unsupported _ _ |- _ => destruct H
         end;
  cbn in *; congruence.

Lemma checkBrowserSupport_unsupported (b : Browser) :
  has_mediaDevices b && has_getDisplayMedia b && has_MediaRecorder b = false ->
  fst (checkBrowserSupport b) = false /\ snd (checkBrowserSupport b) <> None.
Proof.
  unfold checkBrowserSupport.
  destruct (has_mediaDevices b), (has_getDisplayMedia b), (has_MediaRecorder b);
    cbn; intro H; try discriminate H; split; (reflexivity || discriminate).
Qed.

Lemma unsupported_startRecording (msg : option string) (b : Browser) (env : StartEnv)
    (s : State) :
  Unsupported msg s ->
  startRecording b env s
    = (Throw (newError "Browser does not support screen recording"), s).
Proof.
  intros [Hs _ _ _ _ _ _]. open_state s. cbn in Hs. subst. reflexivity.
Qed.

Lemma unsupported_dispatch (msg : option string) (b : Browser) (ev : Event) (s : State) :
  Unsupported msg s -> Unsupported msg (dispatch b ev s).
Proof.
  revert ev s. apply preserves_dispatch.
  - intros env s Hs. now rewrite (unsupported_startRecording msg b env s Hs).
  - intro f. preserves_auto unsupported_update unsupported_prune.
  - intro cam. preserves_auto unsupported_update unsupported_prune.
  - intro cam. preserves_auto unsupported_update unsupported_prune.
  - intro l. unsupported_update.
  - intros loop t. preserves_auto unsupported_update unsupported_prune.
  - unsupported_update.
  - intro d. preserves_auto unsupported_update unsupported_prune.
  - preserves_auto unsupported_update unsupported_prune.
  - preserves_auto unsupported_update unsupported_prune.
  - preserves_auto unsupported_update unsupported_prune.
  - intros cb f s [_ _ _ _ _ Ht _] E. rewrite Ht in E. discriminate E.
  - intro h. preserves_auto unsupported_update unsupported_prune.
  - preserves_auto unsupported_update unsupported_prune.
  - intro e. unsupported_update.
Qed.

Lemma unsupported_initialState (b : Browser) :
  has_mediaDevices b && has_getDisplayMedia b && has_MediaRecorder b = false ->
  Unsupported (snd (checkBrowserSupport b)) (initialState b).
Proof.
  intro H. destruct (checkBrowserSupport_unsupported b H) as [Hf _].
  constructor; cbn; try reflexivity; try (now rewrite Hf); tauto.
Qed.

(** X3.  In a browser that lacks [navigator.mediaDevices],
    [getDisplayMedia] or [MediaRecorder], whatever is called and whatever
    the platform delivers afterwards, the instance never records: the
    support message of the check stays in [error], [isRecording] stays
    false, no recorder is ever built or started, no preview appears, and
    every [startRecording()] throws before touching anything. *)
Theorem unsupported_browser_never_records (b : Browser) (evs : list Event) :
  has_mediaDevices b && has_getDisplayMedia b && has_MediaRecorder b = false ->
  let s := run b evs (initialState b) in
  isBrowserSupported (refs s) = false /\
  error (refs s) = snd (checkBrowserSupport b) /\
  error (refs s) <> None /\
  isRecording (refs s) = false /\
  mediaRecorder (vars s) = None /\
  previewUrl (refs s) = None /\
  ~ In ERecorderStart (trace s) /\
  forall env,
    startRecording b env s
      = (Throw (newError "Browser does not support screen recording"), s).
Proof.
  intros Hb s.
  assert (Hs : Unsupported (snd (checkBrowserSupport b)) s).
  { apply preserves_run; [intros ev s0; apply unsupported_dispatch|].
    now apply unsupported_initialState. }
  pose proof (checkBrowserSupport_unsupported b Hb) as [_ Hmsg].
  destruct Hs as [H1 H2 H3 H4 H5 H6 H7].
  repeat split; try assumption.
  - now rewrite H4.
  - intro env. apply (unsupported_startRecording (snd (checkBrowserSupport b))).
    now constructor.
Qed.

Lemma unsupported_browser_never_records_witness :
  has_mediaDevices oldBrowser && has_getDisplayMedia oldBrowser
    && has_MediaRecorder oldBrowser = false /\
  isRecording
    (refs (run oldBrowser [CallStartRecording envAll; CallStopRecording None]
             (initialState oldBrowser))) = false.
Proof.
  assert (H : has_mediaDevices oldBrowser && has_getDisplayMedia oldBrowser
                && has_MediaRecorder oldBrowser = false) by reflexivity.
  split; [exact H|].
  exact (proj1 (proj2 (proj2 (proj2
    (unsupported_browser_never_records oldBrowser
       [CallStartRecording envAll; CallStopRecording None] H))))).
Defined.

(* ------------------------------------------------------------------ *)
(** ** The preview *)

Ltac preview_update :=
  idtac;
  let s := fresh "s" in
  let H := fresh "H" in
  intros s H; open_state s; unfold hasPreview in *; cbn in *;
  first [exact H | discriminate].

Lemma hasPreview_dispatch (b : Browser) (ev : Event) (s : State) :
  hasPreview s -> hasPreview (dispatch b ev s).
Proof.
  revert ev s. apply preserves_dispatch; [ | | | | | | | | | | | apply preserves_timeout | | | ].
  all: invariant_case preview_update fail.
Qed.

(** X4.  Nothing clears the preview: once [previewUrl] is set, it is
    set after every further call and event, a new [startRecording()]
    included. *)
Theorem previewUrl_is_never_cleared (b : Browser) (evs : list Event) (s : State) :
  previewUrl (refs s) <> None ->
  previewUrl (refs (run b evs s)) <> None.
Proof.
  intro H. apply (preserves_run hasPreview b); [intros; now apply hasPreview_dispatch|].
  exact H.
Qed.

Lemma previewUrl_is_never_cleared_witness :
  previewUrl (refs (run chrome [RecorderStopped] stoppingSession)) <> None /\
  previewUrl
    (refs (run chrome [CallStartRecording envAll; Unmounted]
             (run chrome [RecorderStopped] stoppingSession))) <> None.
Proof.
  assert (H : previewUrl (refs (run chrome [RecorderStopped] stoppingSession)) <> None)
    by (vm_compute; discriminate).
  split; [exact H|].
  exact (previewUrl_is_never_cleared chrome [CallStartRecording envAll; Unmounted] _ H).
Defined.

(* ------------------------------------------------------------------ *)
(** ** Stored chunks *)

Ltac chunks_update :=
  idtac;
  let s := fresh "s" in
  let H := fresh "H" in
  intros s H; open_state s; unfold chunksNonEmpty in *; cbn in *;
  first
    [ exact H
    | apply Forall_nil
    | apply Forall_app; split;
      [ exact H
      | apply Forall_cons; [apply N.ltb_lt; assumption | apply Forall_nil] ] ].

Lemma chunksNonEmpty_dispatch (b : Browser) (ev : Event) (s : State) :
  chunksNonEmpty s -> chunksNonEmpty (dispatch b ev s).
Proof.
  revert ev s. apply preserves_dispatch; [ | | | | | | | | | | | apply preserves_timeout | | | ].
  all: invariant_case chunks_update fail.
Qed.

Lemma newBlob_size_zero (cs : list Blob) (type : string) :
  Forall (fun c => (0 < blob_size c)%N) cs ->
  (blob_size (newBlob cs type) = 0%N <-> cs = []).
Proof.
  intro H. split; [|intros ->; reflexivity].
  destruct H as [|c cs Hc _]; [reflexivity|].
  cbn. intro E. lia.
Qed.

(** X5.  [ondataavailable] stores only blobs of positive size, and
    nothing else adds to [chunks]: after any calls and events every
    stored chunk is non-empty, so a blob sealed from them is empty
    exactly when no chunk is stored. *)
Theorem stored_chunks_are_never_empty (b : Browser) (evs : list Event) :
  let s := run b evs (initialState b) in
  Forall (fun c => (0 < blob_size c)%N) (chunks (vars s)) /\
  forall type, blob_size (newBlob (chunks (vars s)) type) = 0%N <-> chunks (vars s) = [].
Proof.
  intro s.
  assert (H : chunksNonEmpty s).
  { apply preserves_run; [intros; now apply chunksNonEmpty_dispatch|]. apply Forall_nil. }
  split; [exact H|]. intro type. now apply newBlob_size_zero.
Qed.

(* ------------------------------------------------------------------ *)
(** ** Delivered data *)

Lemma ondataavailable_stores (b : Browser) (d : option Blob) (s : State) :
  dispatch b (DataAvailable d) s =
    match storedData [d] with
    | [] => addLog LogInfo "ondataavailable fired, data size:" s
    | _ =>
        addLog LogInfo "Chunk added, total chunks:"
          (updVars (fun x => set_chunks (chunks x ++ storedData [d]) x)
             (addLog LogInfo "ondataavailable fired, data size:" s))
    end.
Proof.
  open_state s. destruct d as [bl|]; cbn [storedData flat_map dispatch]; [|reflexivity].
  unfold runCallback, ondataavailable. exec.
  destruct (0 <? blob_size bl)%N; reflexivity.
Qed.

Lemma storedData_cons (d : option Blob) (data : list (option Blob)) :
  storedData (d :: data) = storedData [d] ++ storedData data.
Proof. cbn [storedData flat_map]. now rewrite app_nil_r. Qed.

Lemma newBlob_app (cs ds : list Blob) (type : string) :
  blob_size (newBlob (cs ++ ds) type)
    = (blob_size (newBlob cs type) + blob_size (newBlob ds type))%N.
Proof.
  cbn [newBlob blob_size]. induction cs as [|c cs IH]; cbn [app fold_right]; [reflexivity|].
  rewrite IH. lia.
Qed.

Lemma storedData_size (data : list (option Blob)) (type : string) :
  blob_size (newBlob (storedData data) type) = deliveredBytes data.
Proof.
  induction data as [|[bl|] data IH]; [reflexivity | | exact IH].
  change (storedData (Some bl :: data))
    with ((if (0 <? blob_size bl)%N then [bl] else []) ++ storedData data).
  rewrite newBlob_app, IH. cbn [deliveredBytes fold_right].
  destruct (0 <? blob_size bl)%N eqn:E; cbn [newBlob blob_size fold_right].
  - fold (deliveredBytes data). lia.
  - apply N.ltb_ge in E. fold (deliveredBytes data). lia.
Qed.

Lemma data_events (b : Browser) (data : list (option Blob)) : forall s : State,
  let s' := run b (map DataAvailable data) s in
  chunks (vars s') = chunks (vars s) ++ storedData data /\
  refs s' = refs s /\ comp s' = comp s /\ plat s' = plat s /\ trace s' = trace s /\
  mediaRecorder (vars s') = mediaRecorder (vars s) /\
  stopResolve (vars s') = stopResolve (vars s) /\
  stopReject (vars s') = stopReject (vars s) /\
  mediaStream (vars s') = mediaStream (vars s) /\
  displayStream (vars s') = displayStream (vars s) /\
  audioContext (vars s') = audioContext (vars s) /\
  timerInterval (vars s') = timerInterval (vars s).
Proof.
  induction data as [|d data IH]; intros s; cbv zeta.
  - unfold run. cbn [map fold_left storedData flat_map]. rewrite app_nil_r. repeat split.
  - unfold run in *. cbn [map fold_left]. cbv zeta in IH.
    specialize (IH (dispatch b (DataAvailable d) s)).
    destruct IH as (Hc & Hr & Hp & Hl & Ht & H1 & H2 & H3 & H4 & H5 & H6 & H7).
    rewrite Hc, Hr, Hp, Hl, Ht, H1, H2, H3, H4, H5, H6, H7.
    rewrite ondataavailable_stores. open_state s.
    rewrite (storedData_cons d data).
    destruct (storedData [d]) as [|c cs]; cbn; rewrite <- ?app_assoc; repeat split.
Qed.

(** X6.  A run of [dataavailable] events appends to [chunks] exactly the
    delivered blobs of positive size, in order of arrival, and changes
    nothing else but the console; a blob sealed afterwards is as large
    as the one sealed before plus all the bytes delivered. *)
Theorem data_events_accumulate (b : Browser) (data : list (option Blob)) (s : State) :
  let s' := run b (map DataAvailable data) s in
  chunks (vars s') = chunks (vars s) ++ storedData data /\
  (forall type,
     blob_size (newBlob (chunks (vars s')) type)
       = (blob_size (newBlob (chunks (vars s)) type) + deliveredBytes data)%N) /\
  refs s' = refs s /\ comp s' = comp s /\ plat s' = plat s /\ trace s' = trace s /\
  mediaRecorder (vars s') = mediaRecorder (vars s).
Proof.
  destruct (data_events b data s) as (Hc & Hr & Hp & Hl & Ht & H1 & _).
  cbv zeta. repeat split; try assumption.
  intro type. rewrite Hc, newBlob_app, storedData_size. reflexivity.
Qed.

(* ------------------------------------------------------------------ *)
(** ** A stop that the recorder answers *)

Lemma run_app (b : Browser) (evs1 evs2 : list Event) (s : State) :
  run b (evs1 ++ evs2) s = run b evs2 (run b evs1 s).
Proof. apply fold_left_app. Qed.

Lemma stopRecording_active (s : State) (r : Recorder) :
  mediaRecorder (vars s) = Some r ->
  isInactive r = false ->
  exists s1,
    stopRecording None s = (Ok (nextHandle (plat s)), s1) /\
    mediaRecorder (vars s1) = Some (mkRecorder Inactive (rec_mimeType r) (rec_explicit r)) /\
    stopResolve (vars s1) = Some (nextHandle (plat s)) /\
    stopReject (vars s1) = Some (nextHandle (plat s)) /\
    chunks (vars s1) = chunks (vars s) /\
    refs s1 = refs s /\
    trace s1 = trace s ++ [ERecorderStop] /\
    timeouts (plat s1) = timeouts (plat s) ++ [SafetyTimeout].
Proof.
  open_state s. destruct r as [st mime ex]. cbn [vars mediaRecorder]. intros -> Hst.
  unfold isInactive in Hst. cbn [rec_state] in Hst.
  destruct st; [discriminate Hst | |]; (eexists; split; [exec; reflexivity|]);
    cbn; repeat split.
Qed.

Lemma onstop_pending (s : State) (r : Recorder) (p : nat) :
  mediaRecorder (vars s) = Some r ->
  stopResolve (vars s) = Some p ->
  let blob := newBlob (chunks (vars s)) (rec_mimeType r) in
  let s' := runCallback onstop s in
  milestones (trace s') = milestones (trace s) ++ [ECleanup; ESettle p (Resolved blob)] /\
  previewUrl (refs s') = Some (BlobUrl blob) /\
  isRecording (refs s') = false /\
  stopResolve (vars s') = None /\
  stopReject (vars s') = None /\
  timerInterval (vars s') = None /\
  displayStream (vars s') = None /\
  mediaStream (vars s') = None /\
  audioContext (vars s') = None /\
  webcamStream (refs s') = None.
Proof.
  open_state s. destruct r as [st mime ex]. cbn [vars mediaRecorder stopResolve chunks].
  intros -> ->. cbv zeta. unfold runCallback, onstop.
  destruct ti; exec_to_cleanup; run_cleanup; exec;
    (split; [milestones_norm; reflexivity | repeat split]).
Qed.

Lemma late_safety_timeout (b : Browser) (f : option PlatformFailure) (s : State) :
  stopResolve (vars s) = None ->
  let s' := dispatch b (TimeoutFires SafetyTimeout f) s in
  trace s' = trace s /\ refs s' = refs s /\ vars s' = vars s.
Proof.
  open_state s. cbn [vars stopResolve]. intros ->. cbv zeta. cbn [dispatch plat timeouts].
  destruct (existsb (isTimeout SafetyTimeout) to); [|repeat split].
  unfold runCallback. exec. repeat split.
Qed.

(** X7.  The blob a stop hands back holds what the recorder delivered.
    When [stopRecording()] is called on a recorder that is not inactive,
    [dataavailable] events follow and then the recorder's [stop] event,
    the promise of that call is resolved, after one [cleanup], with the
    blob of the chunks stored before plus the non-empty blobs delivered
    in between, labelled with the type selected at the start; the same
    blob is behind [previewUrl], [isRecording] is false and every
    stream is released.  The safety timeout of the call, firing after
    that, finds nothing pending and does nothing. *)
Theorem stop_returns_delivered_data
    (b : Browser) (s : State) (r : Recorder) (data : list (option Blob)) :
  mediaRecorder (vars s) = Some r ->
  isInactive r = false ->
  let p := nextHandle (plat s) in
  let blob := newBlob (chunks (vars s) ++ storedData data) (rec_mimeType r) in
  let s' := run b (CallStopRecording None :: map DataAvailable data ++ [RecorderStopped]) s in
  fst (stopRecording None s) = Ok p /\
  milestones (trace s') = milestones (trace s) ++ [ECleanup; ESettle p (Resolved blob)] /\
  previewUrl (refs s') = Some (BlobUrl blob) /\
  isRecording (refs s') = false /\
  displayStream (vars s') = None /\
  mediaStream (vars s') = None /\
  audioContext (vars s') = None /\
  webcamStream (refs s') = None /\
  timerInterval (vars s') = None /\
  (forall f,
     let s'' := dispatch b (TimeoutFires SafetyTimeout f) s' in
     trace s'' = trace s' /\ refs s'' = refs s' /\ vars s'' = vars s').
Proof.
  intros Hr Ha p blob s'.
  destruct (stopRecording_active s r Hr Ha) as (s1 & E1 & Hr1 & Hp1 & _ & Hc1 & _ & Ht1 & _).
  split; [now rewrite E1|].
  assert (Es' : s' = runCallback onstop (run b (map DataAvailable data) s1)).
  { unfold s'. change (CallStopRecording None :: map DataAvailable data ++ [RecorderStopped])
      with ([CallStopRecording None] ++ map DataAvailable data ++ [RecorderStopped]).
    rewrite !run_app. unfold run at 2 3. cbn [fold_left dispatch]. now rewrite E1. }
  destruct (data_events b data s1) as (Hc & _ & _ & _ & Ht & Hr2 & Hp2 & _).
  cbv zeta in Hc, Ht, Hr2, Hp2.
  rewrite Hr1 in Hr2. rewrite Hp1 in Hp2.
  destruct (onstop_pending _ _ _ Hr2 Hp2)
    as (Hm & Hu & Hi & Hsr & _ & Hti & Hd & Hms & Hac & Hw).
  cbv zeta in Hm, Hu, Hi, Hsr, Hti, Hd, Hms, Hac, Hw. cbn [rec_mimeType] in Hm, Hu.
  rewrite <- Es' in *. rewrite Hc, Hc1 in Hm, Hu. rewrite Ht, Ht1 in Hm.
  split.
  { rewrite Hm. unfold milestones at 1. rewrite filter_app.
    cbn [filter isCleanup isSettle orb]. now rewrite app_nil_r. }
  repeat (split; [assumption|]).
  intro f. now apply late_safety_timeout.
Qed.

Lemma stop_returns_delivered_data_witness :
  isInactive (mkRecorder Recording "video/webm;codecs=vp8,opus" false) = false /\
  previewUrl
    (refs (run chrome
             (CallStopRecording None
                :: map DataAvailable
                     [Some (mkBlob 10 "video/webm"); None; Some (mkBlob 0 "video/webm");
                      Some (mkBlob 5 "video/webm")]
                ++ [RecorderStopped])
             recordingSession))
  = Some (BlobUrl
            (newBlob
               (chunks (vars recordingSession)
                  ++ storedData [Some (mkBlob 10 "video/webm"); None;
                                 Some (mkBlob 0 "video/webm"); Some (mkBlob 5 "video/webm")])
               "video/webm;codecs=vp8,opus")).
Proof.
  assert (H1 : mediaRecorder (vars recordingSession)
                 = Some (mkRecorder Recording "video/webm;codecs=vp8,opus" false))
    by (vm_compute; reflexivity).
  assert (H2 : isInactive (mkRecorder Recording "video/webm;codecs=vp8,opus" false) = false)
    by reflexivity.
  split; [exact H2|].
  pose proof (stop_returns_delivered_data chrome recordingSession _
                [Some (mkBlob 10 "video/webm"); None; Some (mkBlob 0 "video/webm");
                 Some (mkBlob 5 "video/webm")] H1 H2) as H.
  cbv zeta in H. exact (proj1 (proj2 (proj2 H))).
Defined.

(* ------------------------------------------------------------------ *)
(** ** The session clock *)

Lemma timerTick_live (b : Browser) (h : nat) (s : State) :
  existsb (Nat.eqb h) (intervals (plat s)) = true ->
  dispatch b (IntervalTick h) s = updRefs (fun r => set_recordingTime (S (recordingTime r)) r) s.
Proof.
  open_state s. cbn [plat intervals dispatch]. intro E.
  unfold runCallback, timerTick. exec.
  rewrite E. reflexivity.
Qed.

Lemma timerTick_cleared (b : Browser) (h : nat) (s : State) :
  existsb (Nat.eqb h) (intervals (plat s)) = false ->
  dispatch b (IntervalTick h) s = s.
Proof.
  open_state s. cbn [plat intervals dispatch]. intro E.
  unfold runCallback, timerTick. exec. rewrite E. reflexivity.
Qed.

Lemma ticks_live (b : Browser) (h n : nat) : forall s : State,
  existsb (Nat.eqb h) (intervals (plat s)) = true ->
  let s' := run b (repeat (IntervalTick h) n) s in
  recordingTime (refs s') = (recordingTime (refs s) + n)%nat /\
  vars s' = vars s /\ plat s' = plat s /\ trace s' = trace s.
Proof.
  induction n as [|n IH]; intros s E; cbv zeta.
  - unfold run. cbn [repeat fold_left]. rewrite Nat.add_0_r. repeat split.
  - unfold run in *. cbn [repeat fold_left]. rewrite (timerTick_live b h s E).
    destruct (IH (updRefs (fun r => set_recordingTime (S (recordingTime r)) r) s))
      as (Ht & Hv & Hp & Htr); [open_state s; exact E|].
    cbv zeta in Ht, Hv, Hp, Htr. rewrite Ht, Hv, Hp, Htr. open_state s. cbn.
    repeat split. lia.
Qed.

Lemma ticks_cleared (b : Browser) (h n : nat) (s : State) :
  existsb (Nat.eqb h) (intervals (plat s)) = false ->
  run b (repeat (IntervalTick h) n) s = s.
Proof.
  intro E. induction n as [|n IH]; [reflexivity|].
  unfold run in *. cbn [repeat fold_left]. now rewrite (timerTick_cleared b h s E).
Qed.

Lemma existsb_filter_out (h : nat) (l : list nat) :
  existsb (Nat.eqb h) (filter (fun k => negb (Nat.eqb k h)) l) = false.
Proof.
  induction l as [|k l IH]; [reflexivity|]. cbn [filter].
  destruct (Nat.eqb_spec k h) as [->|Hne]; cbn [negb]; [exact IH|].
  cbn [existsb]. rewrite IH. destruct (Nat.eqb_spec h k); [congruence | reflexivity].
Qed.

Lemma stopTimer_held (s : State) (h : nat) :
  timerInterval (vars s) = Some h ->
  snd (stopTimer s) =
    updVars (set_timerInterval None)
      (updPlat (fun p => set_intervals (filter (fun k => negb (Nat.eqb k h)) (intervals p)) p) s).
Proof. open_state s. cbn [vars timerInterval]. intros ->. reflexivity. Qed.

(** X8.  The clock of a session: [startTimer] puts [recordingTime] back
    to 0 and keeps the handle of a new interval; every tick of that
    interval adds one second, so after [n] ticks the clock shows [n];
    once [stopTimer] has run the handle is forgotten and later ticks of
    that interval leave the clock where it stopped. *)
Theorem clock_counts_ticks_until_stopped (b : Browser) (s : State) (n m : nat) :
  let h := nextHandle (plat s) in
  let s1 := snd (startTimer s) in
  let s2 := run b (repeat (IntervalTick h) n) s1 in
  let s3 := snd (stopTimer s2) in
  let s4 := run b (repeat (IntervalTick h) m) s3 in
  recordingTime (refs s1) = 0%nat /\
  timerInterval (vars s1) = Some h /\
  recordingTime (refs s2) = n /\
  timerInterval (vars s3) = None /\
  s4 = s3 /\
  recordingTime (refs s4) = n.
Proof.
  intros h s1 s2 s3 s4.
  assert (E1 : existsb (Nat.eqb h) (intervals (plat s1)) = true).
  { unfold s1, h. open_state s. cbn. rewrite existsb_app. cbn.
    rewrite Nat.eqb_refl. now rewrite orb_true_r. }
  assert (H1 : recordingTime (refs s1) = 0%nat) by (unfold s1; open_state s; reflexivity).
  assert (H1' : timerInterval (vars s1) = Some h) by (unfold s1, h; open_state s; reflexivity).
  destruct (ticks_live b h n s1 E1) as (Ht & Hv & Hp & _).
  fold s2 in Ht, Hv, Hp. rewrite H1 in Ht. cbn [Nat.add] in Ht.
  assert (H2' : timerInterval (vars s2) = Some h) by now rewrite Hv.
  assert (H3 : timerInterval (vars s3) = None /\ recordingTime (refs s3) = n /\
               existsb (Nat.eqb h) (intervals (plat s3)) = false).
  { unfold s3. rewrite (stopTimer_held s2 h H2'). cbn. rewrite existsb_filter_out.
    repeat split. exact Ht. }
  destruct H3 as (H3a & H3b & H3c).
  assert (E4 : s4 = s3) by (unfold s4; now apply ticks_cleared).
  repeat split; try assumption. now rewrite E4.
Qed.

(* ------------------------------------------------------------------ *)
(** ** The share is ended from the browser *)

(** X9.  When the user ends the screen share while recording and no
    [stopRecording()] is pending, the [onended] handler stops the
    recorder and nothing else; a second [ended] event does nothing.  The
    recorder's [stop] event then seals the preview and stops the clock,
    but [cleanup] is not called: no track is stopped and the display
    stream, the recorded stream, the audio context, the webcam stream
    and the pending animation frames are all still held.  A
    [stopRecording()] after that is rejected with "Recording already
    stopped". *)
Theorem share_ended_by_user_releases_nothing
    (b : Browser) (s : State) (r : Recorder) (t : Track) (stopFails : option PlatformFailure) :
  isRecording (refs s) = true ->
  mediaRecorder (vars s) = Some r ->
  rec_state r = Recording ->
  stopResolve (vars s) = None ->
  existsb (track_eqb t) (endedHandler (plat s)) = true ->
  let s1 := dispatch b (TrackEnded t) s in
  let s2 := dispatch b RecorderStopped s1 in
  let s3 := dispatch b (CallStopRecording stopFails) s2 in
  trace s1 = trace s ++ [ERecorderStop] /\
  trace (dispatch b (TrackEnded t) s1) = trace s1 /\
  trace s2 = trace s1 /\
  previewUrl (refs s2) = Some (BlobUrl (newBlob (chunks (vars s)) (rec_mimeType r))) /\
  isRecording (refs s2) = false /\
  timerInterval (vars s2) = None /\
  displayStream (vars s2) = displayStream (vars s) /\
  mediaStream (vars s2) = mediaStream (vars s) /\
  audioContext (vars s2) = audioContext (vars s) /\
  webcamStream (refs s2) = webcamStream (refs s) /\
  rafQueue (plat s2) = rafQueue (plat s) /\
  trace s3 = trace s2 ++
    [ESettle (nextHandle (plat s)) (Rejected (newError "Recording already stopped"))].
Proof.
  open_state s. destruct r as [st mime ex].
  cbn [refs vars plat isRecording mediaRecorder stopResolve endedHandler rec_state
       rec_mimeType chunks trace timerInterval displayStream mediaStream audioContext
       webcamStream rafQueue nextHandle].
  intros -> -> -> -> Hh. cbv zeta.
  unfold dispatch, runCallback. exec.
  repeat match goal with
         | |- context [existsb ?f eh] =>
             change (existsb f eh) with (existsb (track_eqb t) eh); rewrite Hh
         end.
  destruct ti; exec; repeat split.
Qed.

Lemma share_ended_by_user_releases_nothing_witness :
  isRecording (refs recordingSession) = true /\
  displayStream
    (vars (dispatch chrome RecorderStopped
             (dispatch chrome (TrackEnded screenTrack) recordingSession)))
  = displayStream (vars recordingSession).
Proof.
  assert (H1 : isRecording (refs recordingSession) = true) by (vm_compute; reflexivity).
  assert (H2 : mediaRecorder (vars recordingSession)
                 = Some (mkRecorder Recording "video/webm;codecs=vp8,opus" false))
    by (vm_compute; reflexivity).
  assert (H3 : rec_state (mkRecorder Recording "video/webm;codecs=vp8,opus" false) = Recording)
    by reflexivity.
  assert (H4 : stopResolve (vars recordingSession) = None) by (vm_compute; reflexivity).
  assert (H5 : existsb (track_eqb screenTrack) (endedHandler (plat recordingSession)) = true)
    by (vm_compute; reflexivity).
  split; [exact H1|].
  pose proof (share_ended_by_user_releases_nothing chrome recordingSession _ screenTrack None
                H1 H2 H3 H4 H5) as H.
  cbv zeta in H. exact (proj1 (proj2 (proj2 (proj2 (proj2 (proj2 (proj2 H))))))).
Defined.

(* ------------------------------------------------------------------ *)
(** ** A start that fails *)

Lemma tryCatch_throws {A} (body : M A) (handler : Err -> M A) (s s' : State) (e : Err) :
  tryCatch body handler s = (Throw e, s') ->
  exists e1 s1, body s = (Throw e1, s1) /\ handler e1 s1 = (Throw e, s').
Proof.
  unfold tryCatch. destruct (body s) as [[a|e1] s1]; intro H; [discriminate H|].
  now exists e1, s1.
Qed.

(** X10.  When [startRecording()] fails in a supported browser, whatever
    the reason, the error is passed on to the caller after its message
    (or "Failed to start recording" for a thrown value that is not an
    [Error]) was put in [error] and [cleanup] has run: no display
    stream, recorded stream, audio context, timer, hidden element or
    stored animation-frame handle is left, and the webcam preview is
    stopped as well. *)
Theorem failed_start_reports_and_releases
    (b : Browser) (env : StartEnv) (s s' : State) (e : Err) :
  isBrowserSupported (refs s) = true ->
  startRecording b env s = (Throw e, s') ->
  error (refs s') =
    Some (if err_is_Error e then err_message e else "Failed to start recording") /\
  In ECleanup (trace s') /\
  displayStream (vars s') = None /\
  mediaStream (vars s') = None /\
  audioContext (vars s') = None /\
  timerInterval (vars s') = None /\
  displayVideoEl (comp s') = None /\
  webcamVideoEl (comp s') = None /\
  animationFrameId (comp s') = None /\
  webcamStream (refs s') = None.
Proof.
  intros Hs E. unfold startRecording, getRef in E.
  change (bind (gets ?g) ?f s) with (f (g s) s) in E. cbv beta in E.
  rewrite Hs in E. cbn [negb] in E.
  apply tryCatch_throws in E. destruct E as (e1 & s1 & _ & E).
  clear Hs. open_state s1. revert E.
  exec_to_cleanup. run_cleanup. exec.
  intro E. injection E as <- <-. cbn.
  repeat split. apply (in_or_app tr (ECleanup :: fx) ECleanup). right. now left.
Qed.

Lemma failed_start_reports_and_releases_witness :
  isBrowserSupported (refs (initialState chrome)) = true /\
  error (refs (snd (startRecording chrome envNoCanvasTrack (initialState chrome))))
    = Some "Failed to capture video from compositing canvas".
Proof.
  assert (H1 : isBrowserSupported (refs (initialState chrome)) = true) by reflexivity.
  assert (H2 : startRecording chrome envNoCanvasTrack (initialState chrome)
               = (Throw (newError "Failed to capture video from compositing canvas"),
                  snd (startRecording chrome envNoCanvasTrack (initialState chrome))))
    by (vm_compute; reflexivity).
  split; [exact H1|].
  exact (proj1 (failed_start_reports_and_releases chrome envNoCanvasTrack
                  (initialState chrome) _ _ H1 H2)).
Defined.

(* ------------------------------------------------------------------ *)
(** ** Webcam off and on again *)

(** X11.  Turning the webcam off and on again replaces the stream: the
    tracks of the old stream are stopped, the newly granted stream is
    held and [webcamEnabled] is true again, and nothing else of the
    instance changes; in particular a hidden webcam element of a running
    compositing loop stays bound to the old, stopped stream.  If the
    second acquisition is refused, no stream is held and
    [webcamEnabled] is false. *)
Theorem webcam_off_and_on_again
    (b : Browser) (s : State) (old new : MediaStream)
    (cam : PlatformFailure + MediaStream) (f : PlatformFailure) :
  webcamStream (refs s) = Some old ->
  let s2 := run b [CallToggleWebcam cam; CallToggleWebcam (inr new)] s in
  let s2' := run b [CallToggleWebcam cam; CallToggleWebcam (inl f)] s in
  webcamStream (refs s2) = Some new /\
  webcamEnabled (refs s2) = true /\
  trace s2 = trace s ++ map ETrackStop old /\
  vars s2 = vars s /\ comp s2 = comp s /\ plat s2 = plat s /\
  isRecording (refs s2) = isRecording (refs s) /\
  webcamStream (refs s2') = None /\
  webcamEnabled (refs s2') = false /\
  trace s2' = trace s ++ map ETrackStop old.
Proof.
  intros Hs. unfold run. cbn [fold_left dispatch].
  rewrite (toggleWebcam_held cam s old Hs). cbn [snd].
  rewrite !toggleWebcam_not_held by (open_state s; reflexivity).
  open_state s. cbn. repeat split.
Qed.

Lemma webcam_off_and_on_again_witness :
  webcamStream (refs compositedSession) = Some [camTrack] /\
  webcamStream
    (refs (run chrome [CallToggleWebcam (inl denied); CallToggleWebcam (inr [SourceTrack 31 VideoKind])]
             compositedSession))
  = Some [SourceTrack 31 VideoKind].
Proof.
  assert (H : webcamStream (refs compositedSession) = Some [camTrack])
    by (vm_compute; reflexivity).
  split; [exact H|].
  exact (proj1 (webcam_off_and_on_again chrome compositedSession [camTrack]
                  [SourceTrack 31 VideoKind] (inl denied) denied H)).
Defined.

(* ------------------------------------------------------------------ *)
(** ** The camera prompt *)

(** X12.  [startRecording()] asks for the camera only when the webcam
    is enabled and no stream is held: with a stream held, or with the
    webcam disabled, its whole effect is the same whatever the camera
    would have answered. *)
Theorem start_asks_for_camera_only_when_needed
    (b : Browser) (env : StartEnv) (s : State) (cam' : PlatformFailure + MediaStream) :
  webcamStream (refs s) <> None \/ webcamEnabled (refs s) = false ->
  startRecording b
    (mkStartEnv (env_display env) (env_mic env) cam' (env_play_display env)
       (env_play_webcam env) (env_canvas_track env) (env_recorder_default env)
       (env_recorder_explicit env) (env_recorder_start env)) s
  = startRecording b env s.
Proof.
  destruct env as [disp mic cam pd pw ct rd re rs]. open_state s.
  cbn [refs webcamStream webcamEnabled env_display env_mic env_play_display
       env_play_webcam env_canvas_track env_recorder_default env_recorder_explicit
       env_recorder_start].
  intros H. destruct bs; [|reflexivity].
  destruct disp as [fd|[display w h]]; [reflexivity|].
  destruct ws as [st|], we; try (destruct H as [H|H]; [now elim H | discriminate H]);
    destruct mic; reflexivity.
Qed.

Lemma start_asks_for_camera_only_when_needed_witness :
  (webcamStream (refs compositedSession) <> None \/
   webcamEnabled (refs compositedSession) = false) /\
  startRecording chrome envNoCanvasTrack compositedSession
  = startRecording chrome
      (mkStartEnv (env_display envNoCanvasTrack) (env_mic envNoCanvasTrack) (inl denied)
         (env_play_display envNoCanvasTrack) (env_play_webcam envNoCanvasTrack)
         (env_canvas_track envNoCanvasTrack) (env_recorder_default envNoCanvasTrack)
         (env_recorder_explicit envNoCanvasTrack) (env_recorder_start envNoCanvasTrack))
      compositedSession.
Proof.
  assert (H : webcamStream (refs compositedSession) <> None \/
              webcamEnabled (refs compositedSession) = false)
    by (left; vm_compute; discriminate).
  split; [exact H|].
  symmetry.
  exact (start_asks_for_camera_only_when_needed chrome envNoCanvasTrack compositedSession
           (inl denied) H).
Defined.

(* ------------------------------------------------------------------ *)
(** ** A session without a compositing loop *)

Lemma no_draw_in_stops (l : list Track) : filter isDraw (map ETrackStop l) = [].
Proof. apply draws_quiet, quiet_stops. Qed.

Ltac noLoop_update :=
  idtac;
  let s := fresh "s" in
  let H := fresh "H" in
  intros s H; open_state s; destruct H; split; cbn in *; try assumption;
  rewrite filter_app; cbn [filter isDraw]; rewrite ?no_draw_in_stops, ?app_nil_r;
  assumption.

Ltac noLoop_prune :=
  idtac;
  match goal with
  | H : noLoop _ ?s, E : nth_error (loops (plat ?s)) ?i = Some _ |- _ =>
      destruct H as [H _]; rewrite H in E; destruct i; discriminate E
  end.

Lemma noLoop_dispatch (drawn : list Effect) (b : Browser) (ev : Event) (s : State) :
  withinSession ev = true -> noLoop drawn s -> noLoop drawn (dispatch b ev s).
Proof.
  intros Hev. apply (preserves_dispatch_when (noLoop drawn) (fun _ => False) (fun _ => True));
    [ intros env [] | | | | | | | | | | | apply preserves_timeout | | |
      | intros env ->; discriminate Hev | intros l _; exact I ].
  all: invariant_case noLoop_update noLoop_prune.
Qed.

(** X13.  Nothing but [startRecording()] creates a compositing loop.  In
    a session that records the raw display track (no loop), whatever is
    called and delivered short of a new start - turning the webcam on,
    changing the layout, animation frames - no frame is ever drawn: the
    webcam bubble cannot be added to a recording that began without
    it. *)
Theorem no_bubble_without_compositing_loop (b : Browser) (evs : list Event) (s : State) :
  loops (plat s) = [] ->
  forallb withinSession evs = true ->
  let s' := run b evs s in
  loops (plat s') = [] /\
  filter isDraw (trace s') = filter isDraw (trace s).
Proof.
  intros Hl Hevs.
  apply (preserves_run_when (noLoop (filter isDraw (trace s))) withinSession b);
    [intros ev s0; apply noLoop_dispatch | exact Hevs | split; [exact Hl | reflexivity]].
Qed.

Lemma no_bubble_without_compositing_loop_witness :
  loops (plat recordingSession) = [] /\
  filter isDraw
    (trace (run chrome
              [CallToggleWebcam (inr [camTrack]); CallSetWebcamLayout layoutCenter;
               AnimationFrame 50; AnimationFrame 100]
              recordingSession))
  = filter isDraw (trace recordingSession).
Proof.
  assert (H1 : loops (plat recordingSession) = []) by (vm_compute; reflexivity).
  assert (H2 : forallb withinSession
                 [CallToggleWebcam (inr [camTrack]); CallSetWebcamLayout layoutCenter;
                  AnimationFrame 50; AnimationFrame 100] = true) by reflexivity.
  split; [exact H1|].
  exact (proj2 (no_bubble_without_compositing_loop chrome _ recordingSession H1 H2)).
Defined.

(* ------------------------------------------------------------------ *)
(** ** Frames of the compositing loop *)

Lemma nth_error_updateAt {A} (f : A -> A) (l : list A) : forall i j,
  nth_error (updateAt i f l) j =
    if Nat.eqb i j then option_map f (nth_error l j) else nth_error l j.
Proof.
  induction l as [|a l IH]; intros [|i] [|j]; cbn; try reflexivity.
  - now destruct (Nat.eqb i j).
  - apply IH.
Qed.

Lemma length_updateAt {A} (f : A -> A) (l : list A) : forall i,
  List.length (updateAt i f l) = List.length l.
Proof. induction l as [|a l IH]; intros [|i]; cbn; try reflexivity. now rewrite IH. Qed.

Lemma not_due_at_once (t : Q) : Qle_bool FRAME_INTERVAL (t - t) = false.
Proof.
  destruct (Qle_bool FRAME_INTERVAL (t - t)) eqn:E; [|reflexivity].
  apply Qle_bool_iff in E. exfalso.
  assert (H : t - t == 0) by ring. rewrite H in E.
  unfold FRAME_INTERVAL in E. apply (Qlt_not_le 0 (1000 / 30)); [reflexivity | exact E].
Qed.

(** One run of the callback of loop [loop]. *)
Lemma compositeFrame_run (loop : nat) (t : Q) (st : State) :
  let st' := runCallback (compositeFrame loop t) st in
  match nth_error (loops (plat st)) loop with
  | None => st' = st
  | Some l =>
      if Qle_bool FRAME_INTERVAL (t - lastFrameTime l) then
        let cur := currentLayout (interpolateLayout (layouts (comp st))) in
        loops (plat st') = updateAt loop (setLastFrameTime t) (loops (plat st)) /\
        layouts (comp st') = interpolateLayout (layouts (comp st)) /\
        (exists ov,
           trace st' = trace st ++ EDrawBackground loop :: ov /\
           (ov = [] \/
            ov = [EDrawOverlay loop
                    (inject_Z (loop_cw l) * layout_x cur)
                    (inject_Z (loop_ch l) * layout_y cur)
                    (Zmin_Q (loop_cw l) (loop_ch l) * layout_size cur)])) /\
        (exists h1 h2, rafQueue (plat st') = rafQueue (plat st) ++ [(h1, loop); (h2, loop)])
      else
        loops (plat st') = loops (plat st) /\
        layouts (comp st') = layouts (comp st) /\
        trace st' = trace st /\
        (exists h, rafQueue (plat st') = rafQueue (plat st) ++ [(h, loop)])
  end.
Proof.
  open_state st. cbn [plat loops comp layouts trace rafQueue]. unfold runCallback. exec.
  destruct (nth_error lo loop) as [l|]; [|reflexivity].
  match goal with |- context [Qle_bool ?a ?b] => destruct (Qle_bool a b) end.
  - match goal with |- context [camReady ?a ?b] => destruct (camReady a b) end;
      destruct ws; exec; rewrite <- ?app_assoc; cbn [app];
      (split; [reflexivity|]); (split; [reflexivity|]);
      (split; [eexists; split; [reflexivity | first [left; reflexivity | right; reflexivity]]|]);
      do 2 eexists; reflexivity.
  - repeat split. eexists; reflexivity.
Qed.

Lemma overlay_or_nothing (ov : list Effect) (loop : nat) (cx cy r : Q) :
  ov = [] \/ ov = [EDrawOverlay loop cx cy r] ->
  Forall (fun e => isOverlay e = true) ov.
Proof. intros [-> | ->]; repeat constructor. Qed.

Lemma drawsOf_app (k : nat) (t u : list Effect) :
  drawsOf k (t ++ u) = (drawsOf k t + drawsOf k u)%nat.
Proof. unfold drawsOf. now rewrite filter_app, length_app. Qed.

Lemma drawsOf_overlays (k : nat) (ov : list Effect) :
  Forall (fun e => isOverlay e = true) ov -> drawsOf k ov = 0%nat.
Proof.
  induction 1 as [|e ov He _ IH]; [reflexivity|].
  destruct e; try discriminate He. exact IH.
Qed.

Lemma drawsOf_frame (k loop : nat) (ov : list Effect) :
  Forall (fun e => isOverlay e = true) ov ->
  drawsOf k (EDrawBackground loop :: ov) = if Nat.eqb loop k then 1%nat else 0%nat.
Proof.
  intro H. change (EDrawBackground loop :: ov) with ([EDrawBackground loop] ++ ov).
  rewrite drawsOf_app, (drawsOf_overlays k ov H), Nat.add_0_r.
  unfold drawsOf. cbn [filter]. now destruct (Nat.eqb loop k).
Qed.

Lemma animationFrame_invariant (J : State -> Prop) (t : Q) (s : State) :
  (forall loop st, J st -> J (runCallback (compositeFrame loop t) st)) ->
  J (updPlat (set_rafQueue []) s) ->
  J (animationFrame t s).
Proof.
  intros Hstep. unfold animationFrame. generalize (updPlat (set_rafQueue []) s).
  induction (rafQueue (plat s)) as [|cb pending IH]; intros st Hst; cbn [fold_left];
    [exact Hst|].
  apply IH. now apply Hstep.
Qed.

(** Loop [k] has drawn at most once since it had drawn [d] frames, and
    if so at time [t]. *)
Lemma drew_once_step (k d : nat) (t : Q) (loop : nat) (st : State) :
  drawsOf k (trace st) = d \/
    (drawsOf k (trace st) = S d /\ lastDrawn k st = Some t) ->
  let st' := runCallback (compositeFrame loop t) st in
  drawsOf k (trace st') = d \/
    (drawsOf k (trace st') = S d /\ lastDrawn k st' = Some t).
Proof.
  intros J st'. pose proof (compositeFrame_run loop t st) as H. fold st' in H.
  destruct (nth_error (loops (plat st)) loop) as [l|] eqn:En; [|now rewrite H].
  destruct (Qle_bool FRAME_INTERVAL (t - lastFrameTime l)) eqn:Edue.
  - destruct H as (Hl & _ & (ov & Ht & Hov) & _). apply overlay_or_nothing in Hov.
    unfold lastDrawn. rewrite Hl, Ht, drawsOf_app, (drawsOf_frame k loop ov Hov).
    rewrite nth_error_updateAt.
    destruct (Nat.eqb_spec loop k) as [->|Hne].
    + rewrite En. cbn [option_map setLastFrameTime lastFrameTime].
      destruct J as [J | [_ J]].
      * right. split; [lia | reflexivity].
      * exfalso. unfold lastDrawn in J. rewrite En in J. cbn [option_map] in J.
        injection J as J. rewrite J, not_due_at_once in Edue. discriminate Edue.
    + rewrite Nat.add_0_r. exact J.
  - destruct H as (Hl & _ & Ht & _). unfold lastDrawn. rewrite Hl, Ht. exact J.
Qed.

(** Loop [k] has not drawn since it had drawn [d] frames, the last one
    at time [last]. *)
Lemma not_due_step (k d : nat) (last t : Q) (loop : nat) (st : State) :
  Qle_bool FRAME_INTERVAL (t - last) = false ->
  drawsOf k (trace st) = d /\ lastDrawn k st = Some last ->
  let st' := runCallback (compositeFrame loop t) st in
  drawsOf k (trace st') = d /\ lastDrawn k st' = Some last.
Proof.
  intros Hnot [Jd Jl] st'. pose proof (compositeFrame_run loop t st) as H. fold st' in H.
  destruct (nth_error (loops (plat st)) loop) as [l|] eqn:En; [|now rewrite H].
  destruct (Qle_bool FRAME_INTERVAL (t - lastFrameTime l)) eqn:Edue.
  - destruct H as (Hl & _ & (ov & Ht & Hov) & _). apply overlay_or_nothing in Hov.
    unfold lastDrawn. rewrite Hl, Ht, drawsOf_app, (drawsOf_frame k loop ov Hov).
    rewrite nth_error_updateAt.
    destruct (Nat.eqb_spec loop k) as [->|Hne].
    + exfalso. unfold lastDrawn in Jl. rewrite En in Jl. cbn [option_map] in Jl.
      injection Jl as Jl. rewrite Jl, Hnot in Edue. discriminate Edue.
    + rewrite Nat.add_0_r. split; assumption.
  - destruct H as (Hl & _ & Ht & _). unfold lastDrawn. rewrite Hl, Ht. split; assumption.
Qed.

(** X14.  The frame-rate cap.  In one animation frame a compositing loop
    draws at most one frame, however many of its callbacks are pending;
    when it draws, it notes the time of the frame; and a frame that
    comes less than 1000/30 ms after the one it last drew is skipped:
    nothing is drawn and the noted time stays. *)
Theorem loop_draws_at_most_once_per_frame (k : nat) (t : Q) (s : State) :
  let s' := animationFrame t s in
  (drawsOf k (trace s') <= S (drawsOf k (trace s)))%nat /\
  (drawsOf k (trace s') <> drawsOf k (trace s) -> lastDrawn k s' = Some t) /\
  (forall last,
     lastDrawn k s = Some last ->
     Qle_bool FRAME_INTERVAL (t - last) = false ->
     drawsOf k (trace s') = drawsOf k (trace s) /\ lastDrawn k s' = Some last).
Proof.
  intro s'.
  assert (J : drawsOf k (trace s') = drawsOf k (trace s) \/
              (drawsOf k (trace s') = S (drawsOf k (trace s)) /\ lastDrawn k s' = Some t)).
  { unfold s'.
    apply (animationFrame_invariant
             (fun st => drawsOf k (trace st) = drawsOf k (trace s) \/
                        (drawsOf k (trace st) = S (drawsOf k (trace s)) /\
                         lastDrawn k st = Some t))).
    - intros loop st. apply drew_once_step.
    - left. reflexivity. }
  split; [destruct J as [J | [J _]]; lia|].
  split; [destruct J as [J | [_ J]]; [intro H; now elim H | intros _; exact J]|].
  intros last Hl Hnot. unfold s'.
  apply (animationFrame_invariant
           (fun st => drawsOf k (trace st) = drawsOf k (trace s) /\
                      lastDrawn k st = Some last)).
  - intros loop st. now apply not_due_step.
  - split; [reflexivity | exact Hl].
Qed.

Lemma loop_draws_at_most_once_per_frame_witness :
  lastDrawn 0 compositedSession = Some 50 /\
  Qle_bool FRAME_INTERVAL (60 - 50) = false /\
  drawsOf 0 (trace (animationFrame 60 compositedSession))
    = drawsOf 0 (trace compositedSession).
Proof.
  assert (H1 : lastDrawn 0 compositedSession = Some 50) by (vm_compute; reflexivity).
  assert (H2 : Qle_bool FRAME_INTERVAL (60 - 50) = false) by reflexivity.
  split; [exact H1|]. split; [exact H2|].
  exact (proj1 (proj2 (proj2 (loop_draws_at_most_once_per_frame 0 60 compositedSession))
                  50 H1 H2)).
Defined.

(* ------------------------------------------------------------------ *)
(** ** Pending animation-frame callbacks *)

Lemma backgrounds_overlays (ov : list Effect) :
  Forall (fun e => isOverlay e = true) ov -> filter isBackground ov = [].
Proof.
  induction 1 as [|e ov He _ IH]; [reflexivity|].
  destruct e; try discriminate He. exact IH.
Qed.

Lemma pending_step (loop : nat) (t : Q) (st : State) :
  (loop < List.length (loops (plat st)))%nat ->
  pendingBound st ->
  let st' := runCallback (compositeFrame loop t) st in
  (List.length (rafQueue (plat st')) + List.length (filter isBackground (trace st))
   = S (List.length (rafQueue (plat st))) + List.length (filter isBackground (trace st')))%nat /\
  (S (List.length (rafQueue (plat st))) <= List.length (rafQueue (plat st')))%nat /\
  pendingBound st' /\
  List.length (loops (plat st')) = List.length (loops (plat st)).
Proof.
  intros Hlt Hb st'. pose proof (compositeFrame_run loop t st) as H. fold st' in H.
  destruct (nth_error (loops (plat st)) loop) as [l|] eqn:En.
  2:{ apply nth_error_None in En. lia. }
  destruct (Qle_bool FRAME_INTERVAL (t - lastFrameTime l)).
  - destruct H as (Hl & _ & (ov & Ht & Hov) & (h1 & h2 & Hq)). apply overlay_or_nothing in Hov.
    unfold pendingBound. rewrite Hl, Ht, Hq, length_updateAt.
    rewrite filter_app, !length_app. cbn [filter isBackground].
    rewrite (backgrounds_overlays ov Hov). cbn [List.length].
    split; [lia|]. split; [lia|]. split; [|reflexivity].
    intros cb Hin. apply in_app_or in Hin. destruct Hin as [Hin | [<- | [<- | []]]];
      [now apply Hb | exact Hlt | exact Hlt].
  - destruct H as (Hl & _ & Ht & (h & Hq)).
    unfold pendingBound. rewrite Hl, Ht, Hq, length_app. cbn [List.length].
    split; [lia|]. split; [lia|]. split; [|reflexivity].
    intros cb Hin. apply in_app_or in Hin. destruct Hin as [Hin | [<- | []]];
      [now apply Hb | exact Hlt].
Qed.

Lemma pending_fold (t : Q) (pending : list (nat * nat)) : forall st : State,
  (forall cb, In cb pending -> (snd cb < List.length (loops (plat st)))%nat) ->
  pendingBound st ->
  let st' := fold_left (fun st0 cb => runCallback (compositeFrame (snd cb) t) st0) pending st in
  (List.length (rafQueue (plat st')) + List.length (filter isBackground (trace st))
   = List.length (rafQueue (plat st)) + List.length pending
     + List.length (filter isBackground (trace st')))%nat /\
  (List.length (rafQueue (plat st)) + List.length pending
   <= List.length (rafQueue (plat st')))%nat /\
  pendingBound st' /\
  List.length (loops (plat st')) = List.length (loops (plat st)).
Proof.
  induction pending as [|cb pending IH]; intros st Hp Hb; cbv zeta; cbn [fold_left].
  - cbn [List.length]. split; [lia|]. split; [lia|]. split; [exact Hb | reflexivity].
  - destruct (pending_step (snd cb) t st (Hp cb (or_introl eq_refl)) Hb)
      as (H1 & H1' & H2 & H3).
    cbv zeta in H1, H1', H2, H3.
    destruct (IH (runCallback (compositeFrame (snd cb) t) st)) as (H4 & H4' & H5 & H6);
      [intros cb' Hin; rewrite H3; apply Hp; now right | exact H2 |].
    cbv zeta in H4, H4', H5, H6. cbn [List.length].
    split; [lia|]. split; [lia|]. split; [exact H5 | now rewrite H6].
Qed.

Lemma pending_frame (t : Q) (s : State) :
  pendingBound s ->
  let s' := animationFrame t s in
  (List.length (rafQueue (plat s')) + List.length (filter isBackground (trace s))
   = List.length (rafQueue (plat s)) + List.length (filter isBackground (trace s')))%nat /\
  (List.length (rafQueue (plat s)) <= List.length (rafQueue (plat s')))%nat /\
  pendingBound s'.
Proof.
  intros Hb s'. unfold s', animationFrame.
  destruct (pending_fold t (rafQueue (plat s)) (updPlat (set_rafQueue []) s))
    as (H1 & H1' & H2 & _).
  - intros cb Hin. open_state s. now apply Hb.
  - intros cb Hin. open_state s. destruct Hin.
  - cbv zeta in H1, H1', H2.
    replace (trace (updPlat (set_rafQueue []) s)) with (trace s) in H1
      by (open_state s; reflexivity).
    replace (List.length (rafQueue (plat (updPlat (set_rafQueue []) s)))) with 0%nat in H1, H1'
      by (open_state s; reflexivity).
    split; [lia|]. split; [lia | exact H2].
Qed.

Lemma pendingBound_checked (s : State) :
  forallb (fun cb => (snd cb <? List.length (loops (plat s)))%nat) (rafQueue (plat s)) = true ->
  pendingBound s.
Proof.
  intros H cb Hin. rewrite forallb_forall in H. apply Nat.ltb_lt. now apply H.
Qed.

(** X15.  The requests of [compositeFrame] outnumber its runs: over any
    number of animation frames the pending callbacks never become fewer,
    and every frame a loop draws leaves one more pending than before, so
    that after [n] drawn frames [n] more callbacks run on every
    animation frame. *)
Theorem pending_callbacks_grow_with_drawn_frames
    (b : Browser) (timestamps : list Q) (s : State) :
  pendingBound s ->
  let s' := run b (map AnimationFrame timestamps) s in
  (List.length (rafQueue (plat s')) + List.length (filter isBackground (trace s))
   = List.length (rafQueue (plat s)) + List.length (filter isBackground (trace s')))%nat /\
  (List.length (rafQueue (plat s)) <= List.length (rafQueue (plat s')))%nat /\
  pendingBound s'.
Proof.
  revert s. induction timestamps as [|t ts IH]; intros s Hb; cbv zeta.
  - unfold run. cbn [map fold_left]. split; [lia|]. split; [lia | exact Hb].
  - unfold run in *. cbn [map fold_left dispatch].
    destruct (pending_frame t s Hb) as (H1 & H1' & H2). cbv zeta in H1, H1', H2.
    destruct (IH _ H2) as (H3 & H4 & H5). cbv zeta in H3, H4, H5.
    split; [lia|]. split; [lia | exact H5].
Qed.

Lemma pending_callbacks_grow_with_drawn_frames_witness :
  pendingBound compositedSession /\
  (List.length (rafQueue (plat compositedSession))
   <= List.length
        (rafQueue (plat (run chrome (map AnimationFrame [100%Q; 150%Q]) compositedSession))))%nat.
Proof.
  assert (H : pendingBound compositedSession).
  { apply pendingBound_checked. vm_compute. reflexivity. }
  split; [exact H|].
  pose proof (pending_callbacks_grow_with_drawn_frames chrome [100; 150]
                compositedSession H) as H'.
  cbv zeta in H'. exact (proj1 (proj2 H')).
Defined.

(* ------------------------------------------------------------------ *)
(** ** Starting with the webcam *)







(* ------------------------------------------------------------------ *)
(** ** A start that succeeds *)

Section Hoare.

Context {A B : Type}.

Lemma hoare_throw (P Q : State -> Prop) (e : Err) : hoare P (@throw A e) Q.
Proof. intros s a s' _ E. discriminate E. Qed.


Lemma hoare_bind (R P Q : State -> Prop) (m : M A) (f : A -> M B) :
  hoare P m R -> (forall a, hoare R (f a) Q) -> hoare P (bind m f) Q.
Proof.
  intros Hm Hf s b s' Hs E. unfold bind in E.
  destruct (m s) as [[a|e] s1] eqn:Em; [|discriminate E].
  exact (Hf a s1 b s' (Hm s a s1 Hs Em) E).
Qed.

Lemma hoare_skip (P Q : State -> Prop) (m : M A) (f : A -> M B) :
  (forall a, hoare (fun _ => True) (f a) Q) -> hoare P (bind m f) Q.
Proof.
  intro Hf. apply (hoare_bind (fun _ => True)); [|exact Hf].
  intros s a s' _ _. exact I.
Qed.

Lemma hoare_tryCatch (P Q : State -> Prop) (body : M A) (handler : Err -> M A) :
  hoare P body Q -> (forall e, hoare (fun _ => True) (handler e) Q) ->
  hoare P (tryCatch body handler) Q.
Proof.
  intros Hb Hh s a s' Hs E. unfold tryCatch in E.
  destruct (body s) as [[a0|e] s1] eqn:Eb.
  - injection E as <- <-. exact (Hb s a0 s1 Hs Eb).
  - exact (Hh e s1 a s' I E).
Qed.

Lemma hoare_preserves (Q : State -> Prop) (m : M A) : preserves Q m -> hoare Q m Q.
Proof. intros H s a s' Hs E. specialize (H s Hs). now rewrite E in H. Qed.


End Hoare.

(** Walk past statements whose effect does not matter, up to the
    construction of the recorder. *)
Ltac hoare_walk :=
  repeat first
    [ match goal with
      | |- hoare _ (bind (tryCatch (bind (newRecorder _ _ _ _) _) _) _) _ => fail 2
      end
    | apply hoare_throw
    | apply hoare_skip; intro
    | apply hoare_tryCatch; [|intro]
    | match goal with
      | |- hoare _ (match ?x with _ => _ end) _ => destruct x eqn:?
      end ].




Lemma hoare_false {A} (Q : State -> Prop) (m : M A) : hoare (fun _ => False) m Q.
Proof. intros s a s' []. Qed.










(* ------------------------------------------------------------------ *)
(** ** The bubble stays on the canvas *)

Lemma presets_fit (mode : LayoutMode) : bubbleFits (presetLayout mode).
Proof. destruct mode; unfold bubbleFits; cbn; repeat split; discriminate. Qed.

Lemma default_fits : bubbleFits defaultLayout.
Proof. unfold bubbleFits; cbn; repeat split; discriminate. Qed.

Lemma interpolate_fits (ls : LayoutState) :
  bubbleFits (currentLayout ls) -> bubbleFits (targetLayout ls) ->
  bubbleFits (currentLayout (interpolateLayout ls)).
Proof.
  destruct ls as [[cx cy cs] [tx ty ts]]. unfold bubbleFits, interpolateLayout, lerp, LERP_FACTOR.
  cbn [currentLayout targetLayout layout_x layout_y layout_size].
  intros (H1 & H2 & H3 & H4 & H5) (G1 & G2 & G3 & G4 & G5). repeat split; lra.
Qed.

Lemma overlay_on_canvas (cw ch : Z) (l : Layout) :
  (0 <= cw)%Z -> (0 <= ch)%Z -> bubbleFits l ->
  onCanvas cw ch (inject_Z cw * layout_x l) (inject_Z ch * layout_y l)
           (Zmin_Q cw ch * layout_size l).
Proof.
  intros Hw Hh (H1 & H2 & H3 & H4 & H5). unfold onCanvas, Zmin_Q.
  assert (Qw : 0 <= inject_Z cw) by (change 0 with (inject_Z 0); now rewrite <- Zle_Qle).
  assert (Qh : 0 <= inject_Z ch) by (change 0 with (inject_Z 0); now rewrite <- Zle_Qle).
  assert (Qm : 0 <= inject_Z (Z.min cw ch))
    by (change 0 with (inject_Z 0); rewrite <- Zle_Qle; lia).
  assert (Mw : inject_Z (Z.min cw ch) <= inject_Z cw) by (rewrite <- Zle_Qle; lia).
  assert (Mh : inject_Z (Z.min cw ch) <= inject_Z ch) by (rewrite <- Zle_Qle; lia).
  generalize dependent (inject_Z (Z.min cw ch)). generalize dependent (inject_Z cw).
  generalize dependent (inject_Z ch). clear Hw Hh. intros qh Qh qw Qw m Qm Mw Mh.
  destruct l as [x y sz]. cbn [layout_x layout_y layout_size] in *.
  repeat split; nra.
Qed.

Lemma canvasSize_nonneg (w h : option N) :
  (0 <= fst (canvasSize w h))%Z /\ (0 <= snd (canvasSize w h))%Z.
Proof.
  unfold canvasSize.
  pose proof (orDefault_pos w 1920 eq_refl) as Hw.
  pose proof (orDefault_pos h 1080 eq_refl) as Hh.
  destruct ((orDefault w 1920 >? MAX_WIDTH) || (orDefault h 1080 >? MAX_HEIGHT))%Z;
    cbn [fst snd]; [|lia].
  destruct (ratio_bounds _ _ Hw Hh) as (Hr & _ & _).
  assert (Qw : 0 < inject_Z (orDefault w 1920))
    by (change 0 with (inject_Z 0); now rewrite <- Zlt_Qlt).
  assert (Qh : 0 < inject_Z (orDefault h 1080))
    by (change 0 with (inject_Z 0); now rewrite <- Zlt_Qlt).
  unfold Math_round. split; change 0%Z with (Qfloor 0); apply Qfloor_resp_le; nra.
Qed.

Lemma bubble_updRefs (f : Refs -> Refs) (s : State) :
  BubbleOnCanvas s -> BubbleOnCanvas (updRefs f s).
Proof. intros [H1 H2 H3 H4]. open_state s. now constructor. Qed.

Lemma bubble_updVars (f : Vars -> Vars) (s : State) :
  BubbleOnCanvas s -> BubbleOnCanvas (updVars f s).
Proof. intros [H1 H2 H3 H4]. open_state s. now constructor. Qed.

Lemma bubble_addLog (l : LogLevel) (msg : string) (s : State) :
  BubbleOnCanvas s -> BubbleOnCanvas (addLog l msg s).
Proof. intros [H1 H2 H3 H4]. open_state s. now constructor. Qed.

Lemma bubble_updComp (f : Comp -> Comp) (s : State) :
  (forall c, layouts (f c) = layouts c) ->
  BubbleOnCanvas s -> BubbleOnCanvas (updComp f s).
Proof.
  intros Hf [H1 H2 H3 H4]. open_state s.
  constructor; cbn [comp updComp] in *; rewrite ?Hf; assumption.
Qed.

Lemma bubble_updPlat (f : Plat -> Plat) (s : State) :
  (forall p, loops (f p) = loops p) ->
  BubbleOnCanvas s -> BubbleOnCanvas (updPlat f s).
Proof.
  intros Hf [H1 H2 H3 H4]. open_state s.
  constructor; unfold canvasOf in *; cbn [plat updPlat] in *; rewrite ?Hf; assumption.
Qed.

Lemma bubble_addEffects (es : list Effect) (s : State) :
  (forall e, In e es -> isOverlay e = false) ->
  BubbleOnCanvas s -> BubbleOnCanvas (addEffects es s).
Proof.
  intros He [H1 H2 H3 H4]. open_state s. constructor; try assumption.
  cbn [trace addEffects] in *. intros loop cx cy r Hin.
  apply in_app_or in Hin. destruct Hin as [Hin|Hin]; [now apply H4|].
  apply He in Hin. discriminate Hin.
Qed.

Lemma bubble_addEffect (e : Effect) (s : State) :
  isOverlay e = false -> BubbleOnCanvas s -> BubbleOnCanvas (addEffect e s).
Proof.
  intros He. apply (bubble_addEffects [e]). intros e' [<- | []]. exact He.
Qed.

Lemma bubble_stops (l : list Track) (s : State) :
  BubbleOnCanvas s -> BubbleOnCanvas (addEffects (map ETrackStop l) s).
Proof.
  apply bubble_addEffects. intros e Hin. apply in_map_iff in Hin.
  destruct Hin as (t & <- & _). reflexivity.
Qed.

Lemma bubble_new_loop (width height : Z) (last : Q) (d : nat) (c : option nat) (s : State) :
  (0 <= width)%Z -> (0 <= height)%Z ->
  BubbleOnCanvas s ->
  BubbleOnCanvas
    (updPlat (fun p => set_loops (loops p ++ [mkLoop width height last d c]) p) s).
Proof.
  intros Hw Hh [H1 H2 H3 H4]. open_state s.
  unfold canvasOf in *. cbn [plat loops comp layouts trace updPlat set_loops] in *.
  constructor; unfold canvasOf; cbn [plat loops comp layouts trace]; try assumption.
  - intros loop cw' ch' E. cbn [plat loops updPlat set_loops] in E.
    destruct (Nat.lt_ge_cases loop (List.length lo)) as [Hlt|Hge].
    + rewrite nth_error_app1 in E by exact Hlt. now apply (H3 loop).
    + rewrite nth_error_app2 in E by exact Hge.
      destruct (loop - List.length lo)%nat as [|k]; cbn in E.
      * injection E as <- <-. now split.
      * destruct k; discriminate E.
  - intros loop cx cy r Hin. destruct (H4 loop cx cy r Hin) as (cw' & ch' & E & Hon).
    exists cw', ch'. split; [|exact Hon]. cbn [plat loops updPlat set_loops].
    destruct (nth_error lo loop) as [L|] eqn:En; [|discriminate E].
    rewrite nth_error_app1 by (apply nth_error_Some; congruence).
    now rewrite En.
Qed.

Lemma bubble_target (l : Layout) (s : State) :
  bubbleFits l -> BubbleOnCanvas s ->
  BubbleOnCanvas (updComp (fun c => set_layouts (setWebcamLayout l (layouts c)) c) s).
Proof.
  intros Hl [H1 H2 H3 H4]. open_state s. constructor; assumption.
Qed.

Ltac bubble_update :=
  idtac;
  let s := fresh "s" in
  let H := fresh "H" in
  intros s H;
  first
    [ apply bubble_updRefs
    | apply bubble_updVars
    | apply bubble_addLog
    | apply bubble_stops
    | apply bubble_updComp; [intro; reflexivity|]
    | apply bubble_updPlat; [intro; reflexivity|]
    | apply bubble_addEffect; [reflexivity|]
    | apply bubble_new_loop; [apply canvasSize_nonneg | apply canvasSize_nonneg |] ];
  exact H.

Lemma compositeFrame_returns (loop : nat) (t : Q) (s : State) :
  runCallback (compositeFrame loop t) s = snd (compositeFrame loop t s).
Proof.
  unfold runCallback.
  assert (H : throwsOnly (fun _ => False) (compositeFrame loop t))
    by (unfold compositeFrame; unfold_statements; repeat throws_step).
  specialize (H s). destruct (compositeFrame loop t s) as [[u|e] s']; [reflexivity|].
  now elim (H e).
Qed.

Lemma canvasOf_updateAt (loops : list Loop) (i j : nat) (t : Q) :
  option_map (fun l => (loop_cw l, loop_ch l)) (nth_error (updateAt i (setLastFrameTime t) loops) j)
  = option_map (fun l => (loop_cw l, loop_ch l)) (nth_error loops j).
Proof.
  rewrite nth_error_updateAt. destruct (Nat.eqb i j); [|reflexivity].
  now destruct (nth_error loops j).
Qed.

Lemma bubble_compositeFrame (loop : nat) (t : Q) :
  preserves BubbleOnCanvas (compositeFrame loop t).
Proof.
  intros s Hs. rewrite <- compositeFrame_returns.
  pose proof (compositeFrame_run loop t s) as H. cbv zeta in H.
  destruct (nth_error (loops (plat s)) loop) as [l|] eqn:En; [|now rewrite H].
  destruct Hs as [H1 H2 H3 H4].
  assert (Hdims : (0 <= loop_cw l)%Z /\ (0 <= loop_ch l)%Z).
  { apply (H3 loop). unfold canvasOf. now rewrite En. }
  destruct (Qle_bool FRAME_INTERVAL (t - lastFrameTime l)).
  - destruct H as (Hl & Hly & (ov & Ht & Hov) & _).
    assert (Hfit : bubbleFits (currentLayout (interpolateLayout (layouts (comp s)))))
      by now apply interpolate_fits.
    constructor; unfold canvasOf; rewrite ?Hl, ?Hly, ?Ht.
    + exact Hfit.
    + destruct (layouts (comp s)); exact H2.
    + intros k cw ch. rewrite canvasOf_updateAt. apply H3.
    + intros k cx cy r Hin. rewrite canvasOf_updateAt.
      apply in_app_or in Hin. destruct Hin as [Hin | [Hin | Hin]];
        [now apply H4 | discriminate Hin |].
      destruct Hov as [-> | ->]; [destruct Hin|].
      destruct Hin as [Hin | []]. injection Hin as <- <- <- <-.
      exists (loop_cw l), (loop_ch l). rewrite En. split; [reflexivity|].
      exact (overlay_on_canvas (loop_cw l) (loop_ch l) _ (proj1 Hdims) (proj2 Hdims) Hfit).
  - destruct H as (Hl & Hly & Ht & _).
    constructor; unfold canvasOf; rewrite ?Hl, ?Hly, ?Ht; assumption.
Qed.

Lemma bubble_dispatch (b : Browser) (ev : Event) (s : State) :
  layoutEventFits ev -> BubbleOnCanvas s -> BubbleOnCanvas (dispatch b ev s).
Proof.
  intros Hev Hs.
  apply (preserves_dispatch_when BubbleOnCanvas (fun _ => True) bubbleFits);
    [ | | | | | | | | | | | apply preserves_timeout | | | | | | exact Hs ].
  all: try (intros l' ->; exact Hev).
  all: try (intros env' _; exact I).
  all: try (intros; apply bubble_compositeFrame).
  all: try (intros l' s' Hl'; apply bubble_target; exact Hl').
  all: invariant_case bubble_update fail.
Qed.

Lemma bubble_initialState (b : Browser) : BubbleOnCanvas (initialState b).
Proof.
  constructor; cbn.
  - exact default_fits.
  - exact default_fits.
  - intros [|loop] cw ch E; discriminate E.
  - intros loop cx cy r [].
Qed.

Lemma fromControls_fits (ev : Event) : fromControls ev -> layoutEventFits ev.
Proof.
  destruct ev; cbn; try (intro; exact I). intros [mode ->]. apply presets_fit.
Qed.

(** X18.  With the recording controls as the only caller of
    [setWebcamLayout] (their five layout buttons), the webcam bubble
    never leaves the canvas: whatever else is called and delivered,
    every overlay a compositing loop draws is a circle that lies within
    the canvas of that loop, also in the middle of a move from one
    layout to another. *)
Theorem bubble_stays_on_canvas (b : Browser) (evs : list Event)
    (loop : nat) (cx cy r : Q) :
  Forall fromControls evs ->
  In (EDrawOverlay loop cx cy r) (trace (run b evs (initialState b))) ->
  exists cw ch,
    canvasOf (run b evs (initialState b)) loop = Some (cw, ch) /\
    onCanvas cw ch cx cy r.
Proof.
  intros Hevs.
  apply (bc_drawn (run b evs (initialState b))).
  apply (preserves_run_if BubbleOnCanvas layoutEventFits b);
    [ intros ev s; apply bubble_dispatch
    | apply (Forall_impl _ fromControls_fits Hevs)
    | apply bubble_initialState ].
Qed.

Lemma bubble_stays_on_canvas_witness :
  Forall fromControls
    [CallStartRecording envAll; setLayout ModeTR; AnimationFrame 50; AnimationFrame 100] /\
  exists cx cy r cw ch,
    In (EDrawOverlay 0 cx cy r)
       (trace (run chrome
                 [CallStartRecording envAll; setLayout ModeTR; AnimationFrame 50;
                  AnimationFrame 100]
                 (initialState chrome))) /\
    canvasOf (run chrome
                [CallStartRecording envAll; setLayout ModeTR; AnimationFrame 50;
                 AnimationFrame 100]
                (initialState chrome)) 0 = Some (cw, ch) /\
    onCanvas cw ch cx cy r.
Proof.
  assert (H1 : Forall fromControls
                 [CallStartRecording envAll; setLayout ModeTR; AnimationFrame 50;
                  AnimationFrame 100]).
  { repeat constructor. exists ModeTR. reflexivity. }
  split; [exact H1|].
  assert (H2 : exists cx cy r,
             In (EDrawOverlay 0 cx cy r)
                (trace (run chrome
                          [CallStartRecording envAll; setLayout ModeTR; AnimationFrame 50;
                           AnimationFrame 100]
                          (initialState chrome)))).
  { vm_compute. do 3 eexists. repeat first [left; reflexivity | right]. }
  destruct H2 as (cx & cy & r & H2).
  destruct (bubble_stays_on_canvas chrome _ 0 cx cy r H1 H2) as (cw & ch & H3 & H4).
  exists cx, cy, r, cw, ch. exact (conj H2 (conj H3 H4)).
Defined.

(* ------------------------------------------------------------------ *)
(** ** What cleanup releases *)

Lemma cleanup_calls (s : State) :
  trace (snd (cleanup s)) = trace s ++ ECleanup :: releaseCalls s.
Proof.
  open_state s.
  destruct af, dv, wv, ds, ms, ac, ti, ws; exec;
    rewrite <- ?app_assoc; cbn [app]; rewrite ?app_nil_r; reflexivity.
Qed.

Lemma cleanup_timer (s : State) (h : nat) :
  timerInterval (vars s) = Some h ->
  intervals (plat (snd (cleanup s)))
    = filter (fun k => negb (Nat.eqb k h)) (intervals (plat s)).
Proof.
  open_state s. cbn [vars timerInterval]. intros ->.
  destruct af, dv, wv, ds, ms, ac, ws; reflexivity.
Qed.

Lemma unmounted_is_cleanup (s : State) : unmounted s = cleanup s.
Proof.
  unfold unmounted, bind. destruct (cleanup_spec s) as (s' & E & C). rewrite E.
  pose proof (cl_webcamStream s s' C) as Hw. open_state s'. cbn in Hw. subst. reflexivity.
Qed.

(** X19.  [cleanup] always returns, and when it does every track of the
    display stream, of the recorded stream and of the webcam stream that
    was held has been stopped, the audio context closed and the clock's
    interval cleared; none of them is held any longer.  It does not
    touch [isRecording], the recorder, the chunks or the preview.
    Unmounting does exactly the same: the [stopWebcam] after its
    [cleanup] finds nothing left. *)
Theorem cleanup_stops_every_held_track (s : State) :
  let s' := snd (cleanup s) in
  fst (cleanup s) = Ok tt /\
  (forall stream t,
     displayStream (vars s) = Some stream \/ mediaStream (vars s) = Some stream \/
     webcamStream (refs s) = Some stream ->
     In t stream ->
     exists before after, trace s' = trace s ++ before ++ ETrackStop t :: after) /\
  (forall ctx, audioContext (vars s) = Some ctx ->
     exists before after, trace s' = trace s ++ before ++ ECloseAudio ctx :: after) /\
  (forall h, timerInterval (vars s) = Some h -> ~ In h (intervals (plat s'))) /\
  displayStream (vars s') = None /\ mediaStream (vars s') = None /\
  webcamStream (refs s') = None /\ audioContext (vars s') = None /\
  timerInterval (vars s') = None /\
  isRecording (refs s') = isRecording (refs s) /\
  mediaRecorder (vars s') = mediaRecorder (vars s) /\
  chunks (vars s') = chunks (vars s) /\
  previewUrl (refs s') = previewUrl (refs s) /\
  unmounted s = cleanup s.
Proof.
  intro s'. pose proof (cleanup_calls s) as Ht. fold s' in Ht.
  destruct (cleanup_spec s) as (s1 & E & C).
  assert (Es : s' = s1) by (unfold s'; now rewrite E). rewrite Es in *.
  split; [now rewrite E|].
  assert (Hsplit : forall e, In e (releaseCalls s) ->
            exists before after, trace s1 = trace s ++ before ++ e :: after).
  { intros e Hin. apply in_split in Hin. destruct Hin as (l1 & l2 & Hin).
    exists (ECleanup :: l1), l2. rewrite Ht, Hin. reflexivity. }
  split.
  { intros stream t Hheld Hin. apply Hsplit. unfold releaseCalls.
    rewrite !in_app_iff.
    destruct Hheld as [H | [H | H]]; rewrite H; cbn [stopsOf];
      [ do 3 right; left | do 4 right; left | do 6 right ]; now apply in_map. }
  split.
  { intros ctx H. apply Hsplit. unfold releaseCalls. rewrite !in_app_iff, H.
    do 5 right. left. now left. }
  split.
  { intros h H. rewrite <- Es. unfold s'. rewrite (cleanup_timer s h H).
    intro Hin. apply filter_In in Hin. destruct Hin as [_ Hin].
    now rewrite Nat.eqb_refl in Hin. }
  destruct C. repeat split; try assumption.
  apply unmounted_is_cleanup.
Qed.

(* ------------------------------------------------------------------ *)
(** ** A start over a running session *)

Ltac nothingReleased_update :=
  idtac;
  let s := fresh "s" in
  let H := fresh "H" in
  intros s H; open_state s; destruct H; split; cbn in *; try assumption;
  rewrite filter_app; cbn [filter isRelease]; rewrite ?app_nil_r; assumption.

(** Walk down a sequence whose statements keep the property [P]. *)
Ltac hoare_carry solver :=
  repeat first
    [ match goal with
      | |- hoare _ (bind (tryCatch (bind (newRecorder _ _ _ _) _) _) _) _ => fail 2
      end
    | apply hoare_throw
    | match goal with
      | |- hoare ?P (bind _ _) _ =>
          apply (hoare_bind P);
            [ apply hoare_preserves; solve [preserves_auto solver fail] | intro ]
      end
    | match goal with
      | |- hoare _ (match ?x with _ => _ end) _ => destruct x eqn:?
      end ].

Lemma start_releases_nothing (b : Browser) (env : StartEnv)
    (released : list Effect) (live : list nat) :
  hoare (nothingReleased released live) (startRecording b env)
    (fun s =>
       filter isRelease (trace s) = released /\
       exists h, intervals (plat s) = live ++ [h] /\ timerInterval (vars s) = Some h).
Proof.
  unfold startRecording.
  apply (hoare_bind (nothingReleased released live));
    [intros s a s' H E; injection E as _ <-; exact H | intro supported].
  destruct (negb supported); [apply hoare_throw|].
  apply hoare_tryCatch; [|intro; hoare_walk].
  hoare_carry nothingReleased_update.
  match goal with
  | |- hoare ?P (bind ?m _) _ =>
      apply (hoare_bind P);
        [ apply hoare_preserves; unfold newRecorder;
          preserves_auto nothingReleased_update fail | intros _ ]
  end.
  intros st u st' [H1 H2] E. open_state st. cbn in H1, H2. subst iv.
  destruct (env_recorder_start env); exec_in E; [discriminate E|].
  injection E; intros Es _; rewrite <- Es. cbn [trace plat vars intervals timerInterval].
  split; [|eexists; split; reflexivity].
  rewrite filter_app. cbn [filter isRelease]. rewrite app_nil_r. exact H1.
Qed.

(** X20.  A [startRecording()] that succeeds ends nothing: it stops no
    track and no recorder, pauses no element, closes no audio context,
    cancels no animation frame and clears no interval.  Called over a
    session that is still running, it takes over the variables without
    releasing what they held: the interval of the earlier clock stays
    live beside the new one, and the [cleanup] of the new session clears
    only the new one. *)
Theorem start_does_not_end_running_session (b : Browser) (env : StartEnv) (s : State) :
  fst (startRecording b env s) = Ok tt ->
  let s' := snd (startRecording b env s) in
  filter isRelease (trace s') = filter isRelease (trace s) /\
  exists h,
    intervals (plat s') = intervals (plat s) ++ [h] /\
    timerInterval (vars s') = Some h /\
    forall h0, In h0 (intervals (plat s)) -> h0 <> h ->
      In h0 (intervals (plat (snd (cleanup s')))).
Proof.
  destruct (startRecording b env s) as [[[]|e] s'] eqn:E; intro H; [|discriminate H].
  cbn [snd].
  destruct (start_releases_nothing b env _ _ s tt s' (conj eq_refl eq_refl) E)
    as (H1 & h & H2 & H3).
  split; [exact H1|]. exists h. split; [exact H2|]. split; [exact H3|].
  intros h0 Hin Hne. rewrite (cleanup_timer s' h H3), H2.
  apply filter_In. split; [apply in_or_app; now left|].
  destruct (Nat.eqb_spec h0 h); [contradiction | reflexivity].
Qed.

Lemma start_does_not_end_running_session_witness :
  fst (startRecording chrome envScreenOnly recordingSession) = Ok tt /\
  filter isRelease (trace (snd (startRecording chrome envScreenOnly recordingSession)))
    = filter isRelease (trace recordingSession).
Proof.
  assert (H : fst (startRecording chrome envScreenOnly recordingSession) = Ok tt)
    by (vm_compute; reflexivity).
  split; [exact H|].
  exact (proj1 (start_does_not_end_running_session chrome envScreenOnly recordingSession H)).
Defined.

(* ------------------------------------------------------------------ *)
(** ** The audio mixer *)






